(** * Waitlist endpoint (api/subscribe.js): a shallow embedding and its properties

    The handler of [api/subscribe.js] keeps a waitlist in one Markdown file of a
    remote repository.  This development embeds the pure parts of the file
    (the two regular expressions, [parseEmails], [isValidEmail]) and the
    request handler with its bounded retry loop, and proves the properties the
    specification states about them.

    Strings are JavaScript strings: sequences of UTF-16 code units.  The
    regular expressions of the source carry no flag, so they work on code
    units, [^] and [$] are the ends of the input, and [.] excludes the four
    line terminators. *)

From Stdlib Require Import List NArith ZArith Lia Bool Decimal DecimalPos.
From Stdlib Require String Ascii.
Import ListNotations String.StringSyntax.

Set Implicit Arguments.
Set Warnings "-register-all".

(** ** JavaScript strings *)

Module JsString.

Local Open Scope N_scope.

Definition code_unit := N.
Bind Scope N_scope with code_unit.
Definition jsstring := list code_unit.

(** An ASCII literal of the source as code units. *)
Definition lit (s : String.string) : jsstring :=
  map Ascii.N_of_ascii (String.list_ascii_of_string s).
Arguments lit s%_string_scope.

Definition LF : code_unit := 10%N.
Definition SPACE : code_unit := 32%N.
Definition COMMA : code_unit := 44%N.
Definition HYPHEN : code_unit := 45%N.
Definition DOT : code_unit := 46%N.
Definition AT : code_unit := 64%N.
(* U+2014, the dash of the entry lines *)
Definition EMDASH : code_unit := 8212%N.

Definition in_range (lo hi c : code_unit) : bool := ((lo <=? c) && (c <=? hi))%N.

(** LineTerminator: LF, CR, LS, PS. *)
Definition is_line_terminator (c : code_unit) : bool :=
  ((c =? 10) || (c =? 13) || (c =? 8232) || (c =? 8233))%N.

(** WhiteSpace or LineTerminator: what [\s] matches and what [trim] strips. *)
Definition is_space (c : code_unit) : bool :=
  ((c =? 9) || (c =? 11) || (c =? 12) || (c =? 32) || (c =? 160) || (c =? 5760)
   || in_range 8192 8202 c || (c =? 8239) || (c =? 8287) || (c =? 12288)
   || (c =? 65279))%N
  || is_line_terminator c.

(** [\d] *)
Definition is_digit (c : code_unit) : bool := in_range 48 57 c.

(** [.] without the [s] flag *)
Definition is_any (c : code_unit) : bool := negb (is_line_terminator c).

(** [[^\s@]] *)
Definition is_email_char (c : code_unit) : bool := negb (is_space c || (c =? AT)%N).

Fixpoint eqb (a b : jsstring) : bool :=
  match a, b with
  | [], [] => true
  | x :: a', y :: b' => (x =? y)%N && eqb a' b'
  | _, _ => false
  end.

(** [String.prototype.split] with a one-unit separator. *)
Fixpoint split (sep : code_unit) (s : jsstring) : list jsstring :=
  match s with
  | [] => [[]]
  | c :: s' =>
      if (c =? sep)%N then [] :: split sep s'
      else match split sep s' with
           | l :: ls => (c :: l) :: ls
           | [] => [[c]]
           end
  end.

Fixpoint trimStart (s : jsstring) : jsstring :=
  match s with
  | [] => []
  | c :: s' => if is_space c then trimStart s' else s
  end.

Fixpoint trimEnd (s : jsstring) : jsstring :=
  match s with
  | [] => []
  | c :: s' =>
      match trimEnd s' with
      | [] => if is_space c then [] else [c]
      | t => c :: t
      end
  end.

Definition trim (s : jsstring) : jsstring := trimEnd (trimStart s).

(** [Array.prototype.includes] on an array of strings. *)
Definition includes (l : list jsstring) (x : jsstring) : bool := existsb (eqb x) l.

Definition digit_unit (d : N) : code_unit := 48 + d mod 10.

Fixpoint uint_units (d : Decimal.uint) : jsstring :=
  match d with
  | Nil => []
  | D0 d' => 48%N :: uint_units d'
  | D1 d' => 49%N :: uint_units d'
  | D2 d' => 50%N :: uint_units d'
  | D3 d' => 51%N :: uint_units d'
  | D4 d' => 52%N :: uint_units d'
  | D5 d' => 53%N :: uint_units d'
  | D6 d' => 54%N :: uint_units d'
  | D7 d' => 55%N :: uint_units d'
  | D8 d' => 56%N :: uint_units d'
  | D9 d' => 57%N :: uint_units d'
  end.

(** A non-negative integer inside a template literal: its decimal digits. *)
Definition decimal (n : N) : jsstring := uint_units (N.to_uint n).

(** The lower-casing of the Basic Latin block. *)
Definition asciiLower (c : code_unit) : code_unit :=
  if in_range 65 90 c then (c + 32)%N else c.

Definition is_ascii (c : code_unit) : bool := (c <? 128)%N.

End JsString.

Import JsString.

(** ** Regular expressions

    Both patterns of the source are sequences of single characters and of
    greedy [+] repetitions of a character class, so they are embedded with
    three combinators in continuation-passing style.  A continuation receives
    the rest of the input; [None] makes the matcher backtrack. *)

Module RegExp.

Section Matcher.
Variable R : Type.

Definition cont := jsstring -> option R.

(** [X+] for a character class [X]: one or more, longest first. *)
Fixpoint plus (p : code_unit -> bool) (k : cont) (s : jsstring) : option R :=
  match s with
  | [] => None
  | c :: s' =>
      if p c then
        match plus p k s' with
        | Some r => Some r
        | None => k s'
        end
      else None
  end.

(** One literal character. *)
Definition chr (c : code_unit) (k : cont) : cont :=
  fun s =>
    match s with
    | c' :: s' => if (c' =? c)%N then k s' else None
    | [] => None
    end.

(** [$] *)
Definition eos (k : cont) : cont :=
  fun s => match s with [] => k [] | _ :: _ => None end.

End Matcher.

(** The text a group matched, from the input left at its two ends. *)
Definition capture (from upto : jsstring) : jsstring :=
  firstn (length from - length upto) from.

(** [/^\d+\.\s+(.+@.+\..+)\s+—\s+/]; the result is group 1. *)
Definition entry_re : jsstring -> option jsstring :=
  plus is_digit (chr DOT (plus is_space (fun g0 =>
    plus is_any (chr AT (plus is_any (chr DOT (plus is_any (fun g1 =>
      plus is_space (chr EMDASH (plus is_space (fun _ =>
        Some (capture g0 g1)))) g1))))) g0))).

(** [/^[^\s@]+@[^\s@]+\.[^\s@]+$/.test] *)
Definition email_re (s : jsstring) : bool :=
  match plus is_email_char (chr AT (plus is_email_char (chr DOT
          (plus is_email_char (eos (fun _ => Some tt)))))) s with
  | Some _ => true
  | None => false
  end.

End RegExp.

Import RegExp.

(** ** Shapes of text

    The words the statements below use about strings: runs of a character
    class, the shapes the two patterns accept, and the entry line as the
    specification describes it. *)

(** A non-empty run of characters of one class. *)
Definition run (p : code_unit -> bool) (x : jsstring) : Prop :=
  x <> [] /\ forallb p x = true.

(** The shape [/^\d+\.\s+(.+@.+\..+)\s+—\s+/] accepts, with [cap] the text
    of the group; [rest] is whatever follows and is not inspected. *)
Definition entry_shape (line cap : jsstring) : Prop :=
  exists d w1 a b c w2 w3 rest,
    line = d ++ DOT :: w1 ++ a ++ AT :: b ++ DOT :: c ++ w2 ++ EMDASH :: w3 ++ rest
    /\ cap = a ++ AT :: b ++ DOT :: c
    /\ run is_digit d /\ run is_space w1
    /\ run is_any a /\ run is_any b /\ run is_any c
    /\ run is_space w2 /\ run is_space w3.

(** The shape [/^[^\s@]+@[^\s@]+\.[^\s@]+$/] accepts. *)
Definition email_shape (s : jsstring) : Prop :=
  exists a b c,
    s = a ++ AT :: b ++ DOT :: c
    /\ run is_email_char a /\ run is_email_char b /\ run is_email_char c.

(** [c] is not the separator [sep]. *)
Definition differs (sep c : code_unit) : bool := negb (c =? sep)%N.

Definition no_space (s : jsstring) : Prop :=
  forallb (fun c => negb (is_space c)) s = true.

(** The entry line in the words of the specification:
    [<N>. <email> — <YYYY-MM-DD>], the date made of three groups of digits. *)
Definition spec_date (s : jsstring) : Prop :=
  exists y m d, s = y ++ HYPHEN :: m ++ HYPHEN :: d
                /\ run is_digit y /\ run is_digit m /\ run is_digit d.

Definition spec_entry_line (line : jsstring) : Prop :=
  exists d w1 a b c w2 w3 date,
    line = d ++ DOT :: w1 ++ a ++ AT :: b ++ DOT :: c ++ w2 ++ EMDASH :: w3 ++ date
    /\ run is_digit d /\ run is_space w1
    /\ run is_any a /\ run is_any b /\ run is_any c
    /\ run is_space w2 /\ run is_space w3 /\ spec_date date.

(** ** Case conversion

    [String.prototype.toLowerCase] follows the Unicode case tables, which are
    no part of the repository.  The development is parametric in it and uses
    three facts: on Basic Latin text it lower-cases letter by letter, it is
    idempotent, and it keeps the shape the email pattern tests (white space,
    [@] and [.] are mapped to themselves and are the image of nothing else). *)

Class CaseConversion := {
  toLowerCase : jsstring -> jsstring;
  toLowerCase_ascii :
    forall s, forallb is_ascii s = true -> toLowerCase s = map asciiLower s;
  toLowerCase_idempotent :
    forall s, toLowerCase (toLowerCase s) = toLowerCase s;
  toLowerCase_email :
    forall s, email_re s = true -> email_re (toLowerCase s) = true
}.

(** ** Values, errors and effects *)

(** A parsed JSON value.  An object lists its own properties, each key once;
    numbers are kept to the integers (no property below depends on the
    value of a number beyond its being zero or not). *)
Inductive json :=
| JNull
| JBool (b : bool)
| JNum (z : Z)
| JStr (s : jsstring)
| JArr (items : list json)
| JObj (fields : list (jsstring * json)).

Inductive js_error :=
| Error (message : jsstring)
| TypeError (message : jsstring).

Definition message (e : js_error) : jsstring :=
  match e with Error m => m | TypeError m => m end.

Inductive result (A : Type) :=
| Ok (a : A)
| Throw (e : js_error).
Arguments Ok {A} a.
Arguments Throw {A} e.

(** What the handler sends through [res]. *)
Record response := {
  status : N;
  payload : option json;
  headers : list (jsstring * jsstring)
}.

Record request := {
  method : jsstring;
  body : option json
}.

(** The file object of the content API, its [content] already decoded
    ([Buffer.from(file.content, 'base64').toString('utf-8')]). *)
Record gh_file := {
  content : jsstring;
  sha : jsstring
}.

(** The outcome of [fetch] for the GET: the promise rejects, or a response
    arrives with its status and what [res.json()] gives. *)
Inductive get_reply :=
| GetRejected (e : js_error)
| GetResponse (st : N) (parsed : result gh_file).

(** The body [updateFile] sends; [put_content] is the text before its
    base64 encoding, [put_sha] is absent for a create. *)
Record put_body := {
  put_message : jsstring;
  put_content : jsstring;
  put_sha : option jsstring
}.

Inductive put_reply :=
| PutRejected (e : js_error)
| PutResponse (st : N) (text : result jsstring) (parsed : result unit).

(** The calendar date of [new Date()] in UTC. *)
Record utc_date := {
  year : Z;
  month : N;
  day : N
}.

(** The world around one request: what the store answers to the GET and to
    the PUT of each attempt (0, 1, 2), and the date read in that attempt. *)
Record environment := {
  store_get : nat -> get_reply;
  store_put : nat -> put_body -> put_reply;
  today : nat -> utc_date
}.

Inductive event :=
| EvGet
| EvPut (b : put_body)
| EvSleep (ms : N)
| EvLog (label detail : jsstring).

(** A computation: the effects performed, in order, and a value or a throw. *)
Definition io (A : Type) : Type := list event * result A.

Definition ret {A} (a : A) : io A := ([], Ok a).
Definition throw {A} (e : js_error) : io A := ([], Throw e).
Definition emit (ev : event) : io unit := ([ev], Ok tt).
Definition lift {A} (r : result A) : io A := ([], r).

Definition bind {A B} (m : io A) (f : A -> io B) : io B :=
  match m with
  | (t1, Ok a) => let (t2, r) := f a in (t1 ++ t2, r)
  | (t1, Throw e) => (t1, Throw e)
  end.

(** [try { m } catch (e) { h e }] *)
Definition catch {A} (m : io A) (h : js_error -> io A) : io A :=
  match m with
  | (t1, Ok a) => (t1, Ok a)
  | (t1, Throw e) => let (t2, r) := h e in (t1 ++ t2, r)
  end.

Declare Scope io_scope.
Delimit Scope io_scope with io.
Notation "x <- m ;; k" := (bind m (fun x => k))
  (at level 61, m at next level, right associativity) : io_scope.
Notation "m ;;; k" := (bind m (fun _ => k))
  (at level 61, right associativity) : io_scope.
Local Open Scope io_scope.

(** ** Coercions of the language *)

Definition number_string (z : Z) : jsstring :=
  if (z <? 0)%Z then HYPHEN :: decimal (Z.abs_N z) else decimal (Z.to_N z).

Fixpoint lookup (key : jsstring) (fields : list (jsstring * json)) : option json :=
  match fields with
  | [] => None
  | (k, v) :: rest => if eqb key k then Some v else lookup key rest
  end.

(** ToString.  An array joins its elements with a comma, [null] giving the
    empty string; an object gives [[object Object]] unless an own [toString]
    (never callable in parsed JSON) hides the inherited one, and then
    OrdinaryToPrimitive ends in a TypeError. *)
Fixpoint ToString (v : json) : result jsstring :=
  match v with
  | JNull => Ok (lit "null")
  | JBool true => Ok (lit "true")
  | JBool false => Ok (lit "false")
  | JNum z => Ok (number_string z)
  | JStr s => Ok s
  | JArr items =>
      (fix join_items (l : list json) : result jsstring :=
         match l with
         | [] => Ok []
         | x :: l' =>
             match (match x with JNull => Ok [] | _ => ToString x end) with
             | Throw e => Throw e
             | Ok sx =>
                 match l' with
                 | [] => Ok sx
                 | _ :: _ =>
                     match join_items l' with
                     | Throw e => Throw e
                     | Ok rest => Ok (sx ++ COMMA :: rest)
                     end
                 end
             end
         end) items
  | JObj fields =>
      match lookup (lit "toString") fields with
      | Some _ => Throw (TypeError (lit "Cannot convert object to primitive value"))
      | None => Ok (lit "[object Object]")
      end
  end.

(** [!v] *)
Definition falsy (v : json) : bool :=
  match v with
  | JNull => true
  | JBool b => negb b
  | JNum z => (z =? 0)%Z
  | JStr s => match s with [] => true | _ => false end
  | JArr _ | JObj _ => false
  end.

(** [v.length <= 254] where the pattern can have matched: a string counts its
    code units, an array its elements; a number or a boolean has no [length]
    and [undefined <= 254] is false.  (An object never gets here: its string
    never matches the pattern, see [email_re_object].) *)
Definition length_le_254 (v : json) : bool :=
  match v with
  | JStr s => length s <=? 254
  | JArr items => length items <=? 254
  | _ => false
  end.

(** [v.trim()] *)
Definition call_trim (v : json) : result jsstring :=
  match v with
  | JStr s => Ok (trim s)
  | _ => Throw (TypeError (lit "email.trim is not a function"))
  end.

(** [const { email } = req.body || {}]: [None] is [undefined]. *)
Definition email_of_body (b : option json) : option json :=
  match b with
  | Some (JObj fields) => lookup (lit "email") fields
  | _ => None
  end.

(** ** The program *)

Definition cors_headers : list (jsstring * jsstring) :=
  [ (lit "Access-Control-Allow-Origin", lit "*");
    (lit "Access-Control-Allow-Methods", lit "GET, POST, OPTIONS");
    (lit "Access-Control-Allow-Headers", lit "Content-Type") ].

(** [res.status(st).json(v)] and [res.status(st).end()] *)
Definition send_json (st : N) (v : json) : response :=
  {| status := st; payload := Some v; headers := cors_headers |}.
Definition send_end (st : N) : response :=
  {| status := st; payload := None; headers := cors_headers |}.

Definition count_of (n : nat) : json := JNum (Z.of_nat n).

(** The responses of the handler, by the line that sends them. *)
Definition preflight : response := send_end 200.
Definition count_response (n : nat) : response :=
  send_json 200 (JObj [(lit "count", count_of n)]).
Definition method_not_allowed : response :=
  send_json 405 (JObj [(lit "error", JStr (lit "Method not allowed"))]).
Definition invalid_input : response :=
  send_json 400 (JObj [(lit "error", JStr (lit "Please enter a valid email address."))]).
Definition duplicate_email (n : nat) : response :=
  send_json 409 (JObj [(lit "error", JStr (lit "You're already on the waitlist!"));
                       (lit "count", count_of n)]).
Definition success (n : nat) : response :=
  send_json 200 (JObj [(lit "message", JStr (lit "You're on the list! We'll be in touch soon."));
                       (lit "count", count_of n)]).
Definition write_failed : response :=
  send_json 500 (JObj [(lit "error", JStr (lit "Something went wrong. Please try again."))]).

(** [res.ok] *)
Definition ok_status (st : N) : bool := in_range 200 299 st.

Definition getFile (env : environment) (attempt : nat) : io (option gh_file) :=
  emit EvGet ;;;
  match store_get env attempt with
  | GetRejected e => throw e
  | GetResponse st parsed =>
      if (st =? 404)%N then ret None
      else if negb (ok_status st)
      then throw (Error (lit "GitHub GET failed: " ++ decimal st))
      else f <- lift parsed ;; ret (Some f)
  end.

(** The body of the PUT (lines 20 to 24); [...(sha && { sha })] leaves the
    token out when it is [null] or empty. *)
Definition put_request (text : jsstring) (sha_ : option jsstring) : put_body :=
  {| put_message := lit "Add new waitlist signup";
     put_content := text;
     put_sha := match sha_ with
                | Some (c :: s) => Some (c :: s)
                | _ => None
                end |}.

Definition updateFile (env : environment) (attempt : nat)
    (text : jsstring) (sha_ : option jsstring) : io unit :=
  let body_ := put_request text sha_ in
  emit (EvPut body_) ;;;
  match store_put env attempt body_ with
  | PutRejected e => throw e
  | PutResponse st text_ parsed =>
      if negb (ok_status st)
      then err <- lift text_ ;;
           throw (Error (lit "GitHub PUT failed: " ++ decimal st
                         ++ SPACE :: EMDASH :: SPACE :: err))
      else lift parsed
  end.

(** The date part of [toISOString]: four digits for the years 0 to 9999,
    a sign and six digits for the others. *)
Definition pad2 (n : N) : jsstring := [digit_unit (n / 10); digit_unit n].
Definition pad4 (n : N) : jsstring :=
  [digit_unit (n / 1000); digit_unit (n / 100); digit_unit (n / 10); digit_unit n].
Definition year_string (y : Z) : jsstring :=
  if ((0 <=? y) && (y <=? 9999))%Z then pad4 (Z.to_N y)
  else (if (y <? 0)%Z then HYPHEN else 43%N)
       :: pad2 (Z.abs_N y / 10000) ++ pad4 (Z.abs_N y).
Definition isoDate (d : utc_date) : jsstring :=
  year_string (year d) ++ HYPHEN :: pad2 (month d) ++ HYPHEN :: pad2 (day d).

Definition header : jsstring := lit "# Waitlist Signups" ++ [LF; LF].

(** Lines 109 to 112: the text written for a new entry. *)
Definition newLine (number : nat) (normalizedEmail timestamp : jsstring) : jsstring :=
  decimal (N.of_nat number) ++ DOT :: SPACE :: normalizedEmail
  ++ SPACE :: EMDASH :: SPACE :: timestamp ++ [LF].

Definition updatedContent (text : jsstring) (number : nat)
    (normalizedEmail timestamp : jsstring) : jsstring :=
  trimEnd text ++ LF :: newLine number normalizedEmail timestamp.

Section Program.
Context {CC : CaseConversion}.

Definition parseEmails (mdContent : jsstring) : list jsstring :=
  fold_left
    (fun emails line =>
       match entry_re line with
       | Some m1 => emails ++ [toLowerCase (trim m1)]
       | None => emails
       end)
    (split LF mdContent) [].

Definition isValidEmail (email : json) : result bool :=
  match ToString email with
  | Throw e => Throw e
  | Ok s => Ok (email_re s && length_le_254 email)
  end.

(** The body of the [try] block of one attempt (lines 92 to 119). *)
Definition attempt_body (env : environment) (normalizedEmail : jsstring)
    (attempt : nat) : io response :=
  file <- getFile env attempt ;;
  let '(text, sha_, emails) :=
    match file with
    | Some f => (content f, Some (sha f), parseEmails (content f))
    | None => (header, None, [])
    end in
  if includes emails normalizedEmail then ret (duplicate_email (length emails))
  else
    let number := length emails + 1 in
    let timestamp := isoDate (today env attempt) in
    updateFile env attempt (updatedContent text number normalizedEmail timestamp) sha_ ;;;
    ret (success number).

(** The [for] loop of lines 90 to 128, [remaining] iterations from [attempt]
    on.  An iteration gives the response the handler returns with, or nothing
    and the loop goes on. *)
Fixpoint retry_loop (env : environment) (normalizedEmail : jsstring)
    (remaining attempt : nat) : io (option response) :=
  match remaining with
  | O => ret None
  | S remaining' =>
      r <- catch (r <- attempt_body env normalizedEmail attempt ;; ret (Some r))
                 (fun e =>
                    if attempt =? 2 then
                      emit (EvLog (lit "Waitlist write failed:") (message e)) ;;;
                      ret (Some write_failed)
                    else emit (EvSleep 500) ;;; ret None) ;;
      match r with
      | Some resp => ret (Some resp)
      | None => retry_loop env normalizedEmail remaining' (S attempt)
      end
  end.

(** The exported handler.  [Ok (Some r)]: it returned after sending [r];
    [Throw e]: the promise it returns rejects with [e]. *)
Definition handler (req : request) (env : environment) : io (option response) :=
  if eqb (method req) (lit "OPTIONS") then ret (Some preflight)
  else if eqb (method req) (lit "GET") then
    catch
      (file <- getFile env 0 ;;
       match file with
       | None => ret (Some (count_response 0))
       | Some f =>
           let emails := parseEmails (content f) in
           ret (Some (count_response (length emails)))
       end)
      (fun _ => ret (Some (count_response 0)))
  else if negb (eqb (method req) (lit "POST")) then ret (Some method_not_allowed)
  else
    let email := email_of_body (body req) in
    rejected <- lift
      match email with
      | None => Ok true
      | Some v =>
          if falsy v then Ok true
          else match isValidEmail v with
               | Ok valid => Ok (negb valid)
               | Throw e => Throw e
               end
      end ;;
    if rejected : bool then ret (Some invalid_input)
    else
      trimmed <- lift match email with
                      | Some v => call_trim v
                      | None => Throw (TypeError (lit "Cannot read properties of undefined"))
                      end ;;
      retry_loop env (toLowerCase trimmed) 3 0.

(** What one line adds to the result of [parseEmails]. *)
Definition line_entry (line : jsstring) : list jsstring :=
  match entry_re line with
  | Some m1 => [toLowerCase (trim m1)]
  | None => []
  end.

(** A normalized email: one the pattern accepts and lower-casing keeps. *)
Definition normalized (n : jsstring) : Prop :=
  email_re n = true /\ toLowerCase n = n.

(** The text, version token and entries an attempt works with. *)
Definition text_of (file : option gh_file) : jsstring :=
  match file with Some f => content f | None => header end.
Definition sha_of (file : option gh_file) : option jsstring :=
  match file with Some f => Some (sha f) | None => None end.
Definition entries_of (file : option gh_file) : list jsstring :=
  match file with Some f => parseEmails (content f) | None => [] end.

End Program.

(** ** Words for the statements *)

(** The file object a GET delivers: absent on 404, a throw on a rejected
    fetch, on any other status outside 200 to 299 and on an unreadable body. *)
Definition fetched (env : environment) (i : nat) : result (option gh_file) :=
  snd (getFile env i).

Definition is_post (req : request) : Prop := method req = lit "POST".

(** A string the validation accepts: non-empty, matching, at most 254 units. *)
Definition valid_email (e : jsstring) : Prop :=
  email_re e = true /\ length e <= 254.

(** The store accepts the write [b] of attempt [i]. *)
Definition accepts_write (env : environment) (i : nat) (b : put_body) : Prop :=
  exists st txt, store_put env i b = PutResponse st txt (Ok tt) /\ ok_status st = true.

(** The entry line without its newline. *)
Definition rendered (number : nat) (n t : jsstring) : jsstring :=
  decimal (N.of_nat number) ++ DOT :: SPACE :: n ++ SPACE :: EMDASH :: SPACE :: t.

(** ** Concrete worlds, for the runs evaluated below *)

Definition sample_date : utc_date := {| year := 2024; month := 1; day := 15 |}.

(** No document yet: the GET answers 404, the PUT creates (201). *)
Definition store_absent : environment :=
  {| store_get := fun _ => GetResponse 404 (Throw (Error (lit "Unexpected token")));
     store_put := fun _ _ => PutResponse 201 (Ok []) (Ok tt);
     today := fun _ => sample_date |}.

(** Every request to the store fails with status 500. *)
Definition store_down : environment :=
  {| store_get := fun _ => GetResponse 500 (Throw (Error (lit "Unexpected token")));
     store_put := fun _ _ => PutResponse 500 (Ok (lit "Server Error")) (Ok tt);
     today := fun _ => sample_date |}.

(** A document with the given text, every write accepted. *)
Definition store_holding (text : jsstring) : environment :=
  {| store_get := fun _ => GetResponse 200 (Ok {| content := text; sha := lit "3f2a" |});
     store_put := fun _ _ => PutResponse 200 (Ok []) (Ok tt);
     today := fun _ => sample_date |}.

Definition post_body (v : json) : request :=
  {| method := lit "POST"; body := Some (JObj [(lit "email", v)]) |}.
Definition post_email (e : jsstring) : request := post_body (JStr e).

Definition DASH : jsstring := [SPACE; EMDASH; SPACE].

(** The document the specification shows, with one entry. *)
Definition one_entry_document : jsstring :=
  header ++ lit "1. a@b.com" ++ DASH ++ lit "2024-01-01" ++ [LF].

(** An entry line that stops after the dash and one space. *)
Definition undated_line : jsstring := lit "1. a@b.c" ++ DASH.

(** ** Words for the further properties *)

Definition is_get (ev : event) : bool :=
  match ev with EvGet => true | _ => false end.
Definition is_put (ev : event) : bool :=
  match ev with EvPut _ => true | _ => false end.
Definition is_sleep (ev : event) : bool :=
  match ev with EvSleep _ => true | _ => false end.

(** How many events of a trace satisfy [p]. *)
Definition count (p : event -> bool) (tr : list event) : nat :=
  length (filter p tr).

(** Every pause of the trace lasts 500 ms. *)
Definition pauses_500 (tr : list event) : Prop :=
  forall ms, In (EvSleep ms) tr -> ms = 500%N.

Section LoopWords.
Context {CC : CaseConversion}.

(** The body of the PUT an attempt sends when the fetched document does not
    hold the email (lines 109 to 114). *)
Definition attempt_write (env : environment) (ne : jsstring) (i : nat)
    (file : option gh_file) : put_body :=
  put_request
    (updatedContent (text_of file) (length (entries_of file) + 1) ne
       (isoDate (today env i)))
    (sha_of file).

(** What one attempt can do: its fetch throws; it finds the email; it sends
    its write and the store accepts it; it sends its write and that throws. *)
Inductive attempt_case (env : environment) (ne : jsstring) (i : nat)
  : list event -> result response -> Prop :=
| fetch_throws e :
    fetched env i = Throw e ->
    attempt_case env ne i [EvGet] (Throw e)
| finds_duplicate file :
    fetched env i = Ok file -> includes (entries_of file) ne = true ->
    attempt_case env ne i [EvGet] (Ok (duplicate_email (length (entries_of file))))
| write_accepted file :
    fetched env i = Ok file -> includes (entries_of file) ne = false ->
    accepts_write env i (attempt_write env ne i file) ->
    attempt_case env ne i [EvGet; EvPut (attempt_write env ne i file)]
      (Ok (success (length (entries_of file) + 1)))
| write_fails file e :
    fetched env i = Ok file -> includes (entries_of file) ne = false ->
    ~ accepts_write env i (attempt_write env ne i file) ->
    attempt_case env ne i [EvGet; EvPut (attempt_write env ne i file)] (Throw e).

(** Lines 98 and 109 to 112 on a text: the entries are decoded, the new line
    is numbered with their count plus one and appended. *)
Definition append_entry (text : jsstring) (entry : jsstring * utc_date) : jsstring :=
  updatedContent text (length (parseEmails text) + 1) (fst entry) (isoDate (snd entry)).

(** The text after the appends of [l], first to last. *)
Definition appended (text : jsstring) (l : list (jsstring * utc_date)) : jsstring :=
  fold_left append_entry l text.

(** The attempt ends in a throw: its fetch fails, or its write is sent and
    not accepted. *)
Definition attempt_failed (env : environment) (ne : jsstring) (i : nat) : Prop :=
  (exists e, fetched env i = Throw e)
  \/ (exists file, fetched env i = Ok file /\ includes (entries_of file) ne = false
                   /\ ~ accepts_write env i (attempt_write env ne i file)).

(** What a run of the loop tells about the store: the response is the
    success of an accepted write, the conflict of a fetched document that
    holds the email, or the failure after three failed attempts. *)
Definition loop_outcome (env : environment) (ne : jsstring)
    (tr : list event) (resp : response) : Prop :=
  (exists i file tr',
      i < 3 /\ fetched env i = Ok file /\ includes (entries_of file) ne = false
      /\ accepts_write env i (attempt_write env ne i file)
      /\ resp = success (length (entries_of file) + 1)
      /\ tr = tr' ++ [EvPut (attempt_write env ne i file)])
  \/ (exists i file tr',
        i < 3 /\ fetched env i = Ok file /\ includes (entries_of file) ne = true
        /\ resp = duplicate_email (length (entries_of file))
        /\ tr = tr' ++ [EvGet])
  \/ (resp = write_failed /\ forall i, i < 3 -> attempt_failed env ne i).

End LoopWords.

(** Entry lines numbered from [k] on, each after a newline. *)
Fixpoint numbered (k : nat) (l : list (jsstring * utc_date)) : jsstring :=
  match l with
  | [] => []
  | x :: l' => LF :: rendered k (fst x) (isoDate (snd x)) ++ numbered (S k) l'
  end.

(** ** Further concrete worlds *)

(** Two entries, the second added by another writer. *)
Definition two_entry_document : jsstring :=
  header ++ lit "1. a@b.com" ++ DASH ++ lit "2024-01-01" ++ LF
  :: lit "2. c@d.org" ++ DASH ++ lit "2024-01-02" ++ [LF].

(** The first write meets a version conflict (409); the second fetch
    delivers the document of the other writer and the second write passes. *)
Definition store_conflict_once : environment :=
  {| store_get := fun i =>
       match i with
       | O => GetResponse 200 (Ok {| content := one_entry_document; sha := lit "aaa1" |})
       | S _ => GetResponse 200 (Ok {| content := two_entry_document; sha := lit "bbb2" |})
       end;
     store_put := fun i _ =>
       match i with
       | O => PutResponse 409 (Ok (lit "conflict")) (Ok tt)
       | S _ => PutResponse 200 (Ok []) (Ok tt)
       end;
     today := fun _ => sample_date |}.

(** What the handler writes for [new@x.com] into an absent document. *)
Definition first_document : jsstring :=
  lit "# Waitlist Signups" ++ LF :: lit "1. new@x.com" ++ DASH ++ lit "2024-01-15" ++ [LF].


(** A document whose entry was typed by hand, in capitals and with double
    spaces. *)
Definition hand_written_document : jsstring :=
  header ++ lit "1.  Bob@X.COM  " ++ EMDASH :: lit " 2024-01-01" ++ [LF].

Definition two_signups : list (jsstring * utc_date) :=
  [ (lit "a@b.com", {| year := 2024; month := 1; day := 15 |});
    (lit "c@d.org", {| year := 2024; month := 12; day := 3 |}) ].

(** * Properties *)

Example split_two_lines :
  split LF (lit "a" ++ LF :: lit "b" ++ [LF]) = [lit "a"; lit "b"; []].
Proof. reflexivity. Qed.

Example entry_re_sample :
  entry_re (lit "12. Bob@Example.com " ++ EMDASH :: lit " 2024-01-16")
  = Some (lit "Bob@Example.com").
Proof. vm_compute. reflexivity. Qed.

Example entry_re_header : entry_re (lit "# Waitlist Signups") = None.
Proof. reflexivity. Qed.

Example email_re_samples :
  email_re (lit "a@b.com") = true /\ email_re (lit "a@b") = false
  /\ email_re (lit " a@b.com ") = false /\ email_re (lit "notanemail") = false.
Proof. repeat split; reflexivity. Qed.

Example decimal_samples : decimal 0 = lit "0" /\ decimal 254 = lit "254".
Proof. split; reflexivity. Qed.

(** ** Character classes *)

Lemma space_not_digit c : is_space c = true -> is_digit c = false.
Proof.
  unfold is_space, is_line_terminator, is_digit, in_range. intros H.
  repeat (apply orb_prop in H; destruct H as [H|H]);
    try (apply andb_prop in H; destruct H as [H1 H2]; apply N.leb_le in H1, H2);
    try apply N.eqb_eq in H; apply andb_false_iff;
    destruct (N.leb_spec 48 c); auto; right; apply N.leb_gt; lia.
Qed.

Lemma line_terminator_space c : is_line_terminator c = true -> is_space c = true.
Proof. unfold is_space. intros ->. apply orb_true_r. Qed.

Lemma email_char_any c : is_email_char c = true -> is_any c = true.
Proof.
  unfold is_email_char, is_any. intros H. apply negb_true_iff in H.
  apply orb_false_iff in H. destruct H as [H _].
  destruct (is_line_terminator c) eqn:E; [|reflexivity].
  apply line_terminator_space in E. congruence.
Qed.

Lemma email_char_not_space c : is_email_char c = true -> is_space c = false.
Proof.
  unfold is_email_char. intros H. apply negb_true_iff in H.
  apply orb_false_iff in H. tauto.
Qed.

(** ** The matcher and the shapes it accepts *)

Section MatcherFacts.
Variable R : Type.
Implicit Types (k : cont R) (s : jsstring).

Lemma plus_sound p k s r :
  plus p k s = Some r ->
  exists pre rest, s = pre ++ rest /\ run p pre /\ k rest = Some r.
Proof.
  induction s as [|c s IH]; simpl; [discriminate|].
  destruct (p c) eqn:Hp; [|discriminate].
  destruct (plus p k s) as [r0|] eqn:E.
  - intros [= <-]. destruct (IH eq_refl) as (pre & rest & -> & [_ Hall] & Hk).
    exists (c :: pre), rest. repeat split; try easy. simpl. now rewrite Hp.
  - intros Hk. exists [c], s. repeat split; try easy. simpl. now rewrite Hp.
Qed.

Lemma plus_complete p k pre rest :
  run p pre -> k rest <> None -> plus p k (pre ++ rest) <> None.
Proof.
  intros [Hne Hall] Hk. induction pre as [|c pre IH]; [easy|].
  simpl in *. apply andb_prop in Hall. destruct Hall as [Hc Hall]. rewrite Hc.
  destruct pre as [|c' pre].
  - simpl. destruct (plus p k rest); [discriminate|exact Hk].
  - destruct (plus p k ((c' :: pre) ++ rest)) eqn:E; [discriminate|].
    exfalso. apply IH; easy.
Qed.

Lemma chr_sound c k s r :
  chr c k s = Some r -> exists rest, s = c :: rest /\ k rest = Some r.
Proof.
  destruct s as [|c' s]; simpl; [discriminate|].
  destruct (N.eqb_spec c' c); [|discriminate]. subst. intros H. now exists s.
Qed.

Lemma chr_here c k s : chr c k (c :: s) = k s.
Proof. simpl. now rewrite N.eqb_refl. Qed.

Lemma eos_sound k s r : eos k s = Some r -> s = [] /\ k [] = Some r.
Proof. destruct s; simpl; [easy|discriminate]. Qed.

End MatcherFacts.

Lemma capture_app (x y : jsstring) : capture (x ++ y) y = x.
Proof.
  unfold capture. rewrite length_app.
  replace (length x + length y - length y) with (length x + 0) by lia.
  rewrite firstn_app_2. simpl. apply app_nil_r.
Qed.

Ltac invert_match H :=
  repeat first
    [ apply plus_sound in H; destruct H as (? & ? & ? & ? & H)
    | apply chr_sound in H; destruct H as (? & ? & H)
    | apply eos_sound in H; destruct H as (? & H) ].

Lemma group_assoc (a b c g : jsstring) :
  a ++ AT :: b ++ DOT :: c ++ g = (a ++ AT :: b ++ DOT :: c) ++ g.
Proof. now rewrite <- app_assoc; simpl; rewrite <- app_assoc. Qed.

Lemma entry_re_sound line cap : entry_re line = Some cap -> entry_shape line cap.
Proof.
  unfold entry_re. intros H. invert_match H. subst.
  injection H as <-. rewrite group_assoc, capture_app, <- group_assoc.
  unfold entry_shape. do 8 eexists.
  split; [reflexivity|]. split; [reflexivity|]. repeat (apply conj; [assumption|]); assumption.
Qed.

Lemma entry_re_complete line cap :
  entry_shape line cap -> exists cap', entry_re line = Some cap'.
Proof.
  intros (d & w1 & a & b & c & w2 & w3 & rest & -> & -> & Hd & Hw1 & Ha & Hb & Hc & Hw2 & Hw3).
  destruct (entry_re _) eqn:E; [eauto|]. exfalso. revert E.
  unfold entry_re.
  repeat first [ apply plus_complete; [assumption|] | rewrite chr_here ].
  discriminate.
Qed.

Lemma email_re_shape s : email_re s = true <-> email_shape s.
Proof.
  unfold email_re, email_shape. split.
  - destruct (plus _ _ s) eqn:H; [intros _|discriminate].
    invert_match H. subst. rewrite app_nil_r. do 3 eexists. split; [reflexivity|]. repeat (apply conj; [assumption|]); assumption.
  - intros (a & b & c & -> & Ha & Hb & Hc).
    match goal with |- match ?m with _ => _ end = _ => destruct m eqn:E end; [reflexivity|].
    exfalso. revert E.
    repeat first [ apply plus_complete; [assumption|] | rewrite chr_here ].
    rewrite <- (app_nil_r c). apply plus_complete; [assumption|]. discriminate.
Qed.

(** ** Strings *)

Lemma eqb_eq (a b : jsstring) : eqb a b = true <-> a = b.
Proof.
  revert b. induction a as [|x a IH]; destruct b as [|y b]; simpl; try easy.
  rewrite andb_true_iff, N.eqb_eq, IH. split.
  - now intros [-> ->].
  - now intros [= -> ->].
Qed.

Lemma eqb_refl (a : jsstring) : eqb a a = true.
Proof. now apply eqb_eq. Qed.

Lemma includes_In (l : list jsstring) (x : jsstring) : includes l x = true <-> In x l.
Proof.
  unfold includes. rewrite existsb_exists. split.
  - intros (y & Hy & E). apply eqb_eq in E. now subst.
  - intros H. exists x. split; [assumption|apply eqb_refl].
Qed.


Lemma split_nonempty sep s : split sep s <> [].
Proof.
  destruct s as [|c s]; simpl; [discriminate|].
  destruct (c =? sep)%N; [discriminate|]. now destruct (split sep s).
Qed.

Lemma split_app sep a b : split sep (a ++ sep :: b) = split sep a ++ split sep b.
Proof.
  induction a as [|c a IH]; simpl.
  - now rewrite N.eqb_refl.
  - destruct (c =? sep)%N; rewrite IH; [reflexivity|].
    pose proof (split_nonempty sep a) as Hne.
    now destruct (split sep a).
Qed.

(** A text without the separator is one line. *)
Lemma split_one_line sep s :
  forallb (differs sep) s = true -> split sep s = [s].
Proof.
  induction s as [|c s IH]; simpl; [reflexivity|].
  intros H. apply andb_prop in H. destruct H as [Hc Hs].
  apply negb_true_iff in Hc. now rewrite Hc, IH.
Qed.

Lemma split_lines_free sep s :
  Forall (fun l => forallb (differs sep) l = true) (split sep s).
Proof.
  induction s as [|c s IH]; simpl.
  - now constructor.
  - destruct (c =? sep)%N eqn:E.
    + now constructor.
    + destruct (split sep s) as [|l ls]; inversion IH; subst; constructor; simpl;
        unfold differs at 1; try rewrite E; auto.
Qed.

Lemma trimEnd_no_space s :
  forallb (fun c => negb (is_space c)) s = true -> trimEnd s = s.
Proof.
  induction s as [|c s IH]; simpl; [reflexivity|].
  intros H. apply andb_prop in H. destruct H as [Hc Hs].
  apply negb_true_iff in Hc. rewrite IH, Hc by assumption. now destruct s.
Qed.

Lemma trimStart_no_space s :
  forallb (fun c => negb (is_space c)) s = true -> trimStart s = s.
Proof.
  destruct s as [|c s]; simpl; [reflexivity|].
  intros H. apply andb_prop in H. destruct H as [Hc _].
  apply negb_true_iff in Hc. now rewrite Hc.
Qed.

Lemma trim_no_space s :
  forallb (fun c => negb (is_space c)) s = true -> trim s = s.
Proof.
  intros H. unfold trim. now rewrite trimStart_no_space, trimEnd_no_space.
Qed.

Lemma forallb_weaken (p q : code_unit -> bool) (s : jsstring) :
  (forall c, p c = true -> q c = true) -> forallb p s = true -> forallb q s = true.
Proof.
  intros Hpq. induction s as [|c s IH]; simpl; [reflexivity|].
  intros H. apply andb_prop in H. destruct H as [Hc Hs]. now rewrite Hpq, IH.
Qed.

Lemma run_weaken (p q : code_unit -> bool) (s : jsstring) :
  (forall c, p c = true -> q c = true) -> run p s -> run q s.
Proof. intros Hpq [Hne H]. split; [assumption|]. now apply forallb_weaken with p. Qed.

(** Two runs of one class, each followed by a character outside it, that
    start the same text are the same run. *)
Lemma span_unique (q : code_unit -> bool) (x y : jsstring) c c' r r' :
  forallb q x = true -> forallb q y = true -> q c = false -> q c' = false ->
  x ++ c :: r = y ++ c' :: r' -> x = y /\ c = c' /\ r = r'.
Proof.
  revert y. induction x as [|a x IH]; intros [|b y]; simpl; intros Hx Hy Hc Hc' E.
  - now injection E as -> ->.
  - injection E as -> _. apply andb_prop in Hy. destruct Hy. congruence.
  - injection E as -> _. apply andb_prop in Hx. destruct Hx. congruence.
  - injection E as -> E. apply andb_prop in Hx, Hy. destruct Hx, Hy.
    destruct (IH y) as (-> & -> & ->); auto.
Qed.

Lemma filter_all (p : code_unit -> bool) (s : jsstring) :
  forallb p s = true -> filter p s = s.
Proof.
  induction s as [|c s IH]; simpl; [reflexivity|].
  intros H. apply andb_prop in H. destruct H as [Hc Hs]. now rewrite Hc, IH.
Qed.

Lemma filter_none (p : code_unit -> bool) (s : jsstring) :
  filter p s = [] <-> forallb (fun c => negb (p c)) s = true.
Proof.
  induction s as [|c s IH]; simpl; [easy|].
  destruct (p c); simpl; [easy|exact IH].
Qed.

(** ** Digits and dates *)

Lemma uint_units_digits d : forallb is_digit (uint_units d) = true.
Proof. induction d; simpl; auto. Qed.

Lemma decimal_run n : run is_digit (decimal n).
Proof.
  split; [|apply uint_units_digits].
  unfold decimal. destruct n as [|p]; simpl; [discriminate|].
  pose proof (Unsigned.to_uint_nonnil p) as Hp.
  destruct (Pos.to_uint p); simpl; congruence.
Qed.

Lemma digit_unit_digit n : is_digit (digit_unit n) = true.
Proof.
  unfold is_digit, in_range, digit_unit.
  pose proof (N.mod_upper_bound n 10 ltac:(discriminate)) as H.
  generalize dependent (n mod 10)%N. intros m H.
  apply andb_true_iff. split; apply N.leb_le; lia.
Qed.

Lemma digit_not_space c : is_digit c = true -> is_space c = false.
Proof.
  intros H. destruct (is_space c) eqn:E; [|reflexivity].
  apply space_not_digit in E. congruence.
Qed.

Lemma no_space_app a b : no_space (a ++ b) <-> no_space a /\ no_space b.
Proof. unfold no_space. rewrite forallb_app. apply andb_true_iff. Qed.

Lemma no_space_cons c s : no_space (c :: s) <-> is_space c = false /\ no_space s.
Proof. unfold no_space. simpl. rewrite andb_true_iff, negb_true_iff. tauto. Qed.

Lemma digits_no_space s : forallb is_digit s = true -> no_space s.
Proof.
  apply forallb_weaken. intros c H. now rewrite digit_not_space.
Qed.

Lemma pad2_no_space n : no_space (pad2 n).
Proof. apply digits_no_space. simpl. now rewrite !digit_unit_digit. Qed.

Lemma pad4_no_space n : no_space (pad4 n).
Proof. apply digits_no_space. simpl. now rewrite !digit_unit_digit. Qed.

Lemma isoDate_no_space d : no_space (isoDate d).
Proof.
  apply forallb_weaken with (p := fun c => is_digit c || (c =? HYPHEN)%N || (c =? 43)%N).
  - intros c H. apply negb_true_iff.
    apply orb_prop in H. destruct H as [H|H]; [apply orb_prop in H; destruct H as [H|H]|].
    + now apply digit_not_space.
    + apply N.eqb_eq in H. now subst.
    + apply N.eqb_eq in H. now subst.
  - unfold isoDate, year_string.
    destruct ((0 <=? year d)%Z && (year d <=? 9999)%Z); [|destruct (year d <? 0)%Z];
      simpl; rewrite !digit_unit_digit; reflexivity.
Qed.

Lemma email_chars_no_space s : forallb is_email_char s = true -> no_space s.
Proof.
  apply forallb_weaken. intros c H. now rewrite email_char_not_space.
Qed.

Lemma email_shape_no_space s : email_shape s -> no_space s.
Proof.
  intros (a & b & c & -> & [_ Ha] & [_ Hb] & [_ Hc]).
  apply no_space_app; split; [now apply email_chars_no_space|].
  apply no_space_cons; split; [reflexivity|].
  apply no_space_app; split; [now apply email_chars_no_space|].
  apply no_space_cons; split; [reflexivity|now apply email_chars_no_space].
Qed.

Lemma email_re_no_space s : email_re s = true -> no_space s.
Proof. intros H. now apply email_shape_no_space, email_re_shape. Qed.

Lemma no_space_no_LF s :
  no_space s -> forallb (differs LF) s = true.
Proof.
  apply forallb_weaken. intros c H. apply negb_true_iff in H. unfold differs.
  destruct (N.eqb_spec c LF); [subst; discriminate|reflexivity].
Qed.

(** ** The line the handler writes decodes to its email *)

Lemma three_spaces (w1 fc w2 w3 fr : jsstring) :
  w1 <> [] -> w2 <> [] -> w3 <> [] ->
  w1 ++ fc ++ w2 ++ w3 ++ fr = [SPACE; SPACE; SPACE] ->
  w1 = [SPACE] /\ fc = [] /\ w2 = [SPACE] /\ w3 = [SPACE] /\ fr = [].
Proof.
  intros H1 H2 H3 E. pose proof (f_equal (@length _) E) as L.
  rewrite !length_app in L. simpl in L.
  destruct w1 as [|x1 [|? ?]]; try easy; simpl in L; try lia;
  destruct w2 as [|x2 [|? ?]]; try easy; simpl in L; try lia;
  destruct w3 as [|x3 [|? ?]]; try easy; simpl in L; try lia.
  destruct fc; simpl in L; try lia. destruct fr; simpl in L; try lia.
  now injection E as -> -> ->.
Qed.

Lemma entry_re_rendered (D n t : jsstring) :
  run is_digit D -> email_re n = true -> no_space t ->
  entry_re (D ++ DOT :: SPACE :: n ++ SPACE :: EMDASH :: SPACE :: t) = Some n.
Proof.
  intros HD Hn Ht.
  assert (Hs : no_space n) by now apply email_re_no_space.
  apply email_re_shape in Hn. destruct Hn as (a & b & c & En & Ha & Hb & Hc).
  assert (Hshape : entry_shape (D ++ DOT :: SPACE :: n ++ SPACE :: EMDASH :: SPACE :: t) n).
  { exists D, [SPACE], a, b, c, [SPACE], [SPACE], t.
    split; [|split; [exact En|]].
    - rewrite En, <- group_assoc. reflexivity.
    - repeat (apply conj; [first [assumption | now split
                                 | eapply run_weaken; [apply email_char_any|eassumption]]|]).
      now split. }
  destruct (entry_re_complete Hshape) as (cap & Hcap). rewrite Hcap. f_equal.
  apply entry_re_sound in Hcap.
  destruct Hcap as (d & w1 & a' & b' & c' & w2 & w3 & rest & E & -> & Hd & Hw1 & _ & _ & _ & Hw2 & Hw3).
  rewrite (group_assoc a' b' c') in E. set (cap := a' ++ AT :: b' ++ DOT :: c') in *.
  destruct HD as [_ HD], Hd as [_ Hd].
  apply (span_unique is_digit) in E; auto. destruct E as (<- & _ & E).
  pose proof (f_equal (filter is_space) E) as F.
  simpl in F. rewrite !filter_app in F. simpl in F. rewrite !filter_app in F.
  destruct Hw1 as [N1 A1], Hw2 as [N2 A2], Hw3 as [N3 A3].
  rewrite (proj2 (filter_none is_space n) Hs), (proj2 (filter_none is_space t) Ht) in F.
  rewrite (filter_all _ _ A1), (filter_all _ _ A2), (filter_all _ _ A3) in F.
  simpl in F. symmetry in F. apply three_spaces in F; auto.
  destruct F as (-> & Fc & -> & -> & _). apply filter_none in Fc.
  simpl in E. injection E as E.
  apply (span_unique (fun c => negb (is_space c))) in E; auto.
  now destruct E as (<- & _).
Qed.

(** ** A case conversion for Basic Latin text

    Lower-casing letter by letter, every code unit outside [A-Z] kept: the
    conversion of the language on Basic Latin text.  It instantiates the
    interface wherever a concrete run of the program is evaluated. *)

Ltac decide_class :=
  repeat (match goal with
          | |- context [N.eqb ?a ?b] => destruct (N.eqb_spec a b); try lia
          | |- context [N.leb ?a ?b] => destruct (N.leb_spec a b); try lia
          end; cbv beta iota delta [andb orb negb]);
  try reflexivity; try discriminate.

Lemma asciiLower_idempotent c : asciiLower (asciiLower c) = asciiLower c.
Proof.
  unfold asciiLower, in_range.
  destruct (N.leb_spec 65 c), (N.leb_spec c 90);
    cbv beta iota delta [andb orb negb]; decide_class.
Qed.

Lemma asciiLower_email_char c :
  is_email_char c = true -> is_email_char (asciiLower c) = true.
Proof.
  unfold asciiLower, in_range.
  destruct (N.leb_spec 65 c); simpl; [|easy].
  destruct (N.leb_spec c 90); simpl; [|easy].
  intros _. unfold is_email_char, is_space, is_line_terminator, in_range, AT.
  decide_class.
Qed.

Lemma asciiLower_email_shape s : email_shape s -> email_shape (map asciiLower s).
Proof.
  intros (a & b & c & -> & Ha & Hb & Hc).
  assert (W : forall x, run is_email_char x -> run is_email_char (map asciiLower x)).
  { intros x [Hne Hall]. split; [now destruct x|].
    rewrite forallb_forall in *. intros y Hy. apply in_map_iff in Hy.
    destruct Hy as (z & <- & Hz). auto using asciiLower_email_char. }
  exists (map asciiLower a), (map asciiLower b), (map asciiLower c).
  rewrite map_app. simpl. rewrite map_app. simpl. auto.
Qed.

#[export] Instance basicLatin : CaseConversion := {
  toLowerCase := map asciiLower;
  toLowerCase_ascii := fun s _ => eq_refl;
  toLowerCase_idempotent := fun s =>
    eq_trans (map_map asciiLower asciiLower s)
             (map_ext _ _ asciiLower_idempotent s);
  toLowerCase_email := fun s H =>
    proj2 (email_re_shape _) (asciiLower_email_shape (proj1 (email_re_shape s) H))
}.

(** ** Decoding *)

Section Decoding.
Context {CC : CaseConversion}.

Lemma parseEmails_flat_map text :
  parseEmails text = flat_map line_entry (split LF text).
Proof.
  unfold parseEmails.
  enough (G : forall ls acc,
             fold_left (fun emails line =>
                          match entry_re line with
                          | Some m1 => emails ++ [toLowerCase (trim m1)]
                          | None => emails
                          end) ls acc
             = acc ++ flat_map line_entry ls) by apply (G _ []).
  induction ls as [|l ls IH]; intros acc; simpl.
  - now rewrite app_nil_r.
  - rewrite IH. unfold line_entry. destruct (entry_re l); simpl.
    + now rewrite <- app_assoc.
    + reflexivity.
Qed.

Lemma parseEmails_app a b :
  parseEmails (a ++ LF :: b) = parseEmails a ++ parseEmails b.
Proof. now rewrite !parseEmails_flat_map, split_app, flat_map_app. Qed.

Lemma parseEmails_nil : parseEmails [] = [].
Proof. reflexivity. Qed.

Lemma parseEmails_one_line line :
  forallb (differs LF) line = true ->
  parseEmails line = line_entry line.
Proof.
  intros H. rewrite parseEmails_flat_map, split_one_line by assumption.
  simpl. apply app_nil_r.
Qed.

Lemma parseEmails_final_newline a : parseEmails (a ++ [LF]) = parseEmails a.
Proof. now rewrite parseEmails_app, parseEmails_nil, app_nil_r. Qed.

(** The rendered entry, without its final newline, is a single line. *)
Lemma rendered_one_line (D n t : jsstring) :
  forallb is_digit D = true -> no_space n -> no_space t ->
  forallb (differs LF)
          (D ++ DOT :: SPACE :: n ++ SPACE :: EMDASH :: SPACE :: t) = true.
Proof.
  intros HD Hn Ht.
  pose proof (no_space_no_LF (digits_no_space _ HD)) as FD.
  pose proof (no_space_no_LF Hn) as Fn. pose proof (no_space_no_LF Ht) as Ft.
  assert (C : forall c s, forallb (differs LF) (c :: s)
                          = differs LF c && forallb (differs LF) s) by reflexivity.
  rewrite forallb_app, !C, forallb_app, !C, FD, Fn, Ft. reflexivity.
Qed.

(** Letter case apart, the two spellings of the specification's example are
    one string, whatever the conversion outside Basic Latin. *)
Lemma case_variants_same_key :
  toLowerCase (lit "A@B.com") = lit "a@b.com"
  /\ toLowerCase (lit "a@B.COM") = lit "a@b.com".
Proof. split; rewrite toLowerCase_ascii; reflexivity. Qed.

Lemma normalize_valid e :
  email_re e = true -> trim e = e /\ normalized (toLowerCase e).
Proof.
  intros H. split.
  - now apply trim_no_space, email_re_no_space.
  - split; [now apply toLowerCase_email|apply toLowerCase_idempotent].
Qed.

Lemma parseEmails_newLine number n t :
  normalized n -> no_space t -> parseEmails (newLine number n t) = [n].
Proof.
  intros [Hre Hlow] Ht. unfold newLine.
  replace (decimal (N.of_nat number) ++ DOT :: SPACE :: n ++ SPACE :: EMDASH :: SPACE :: t ++ [LF])
    with ((decimal (N.of_nat number) ++ DOT :: SPACE :: n ++ SPACE :: EMDASH :: SPACE :: t) ++ [LF])
    by (rewrite <- app_assoc; simpl; now rewrite <- app_assoc).
  rewrite parseEmails_final_newline, parseEmails_one_line.
  - unfold line_entry.
    rewrite entry_re_rendered by auto using decimal_run.
    now rewrite trim_no_space, Hlow by now apply email_re_no_space.
  - apply rendered_one_line; auto using email_re_no_space.
    apply decimal_run.
Qed.

(** Re-decoding the text written for a new entry: the entries of the
    right-trimmed text, then the new one. *)
Lemma parseEmails_updatedContent text number n t :
  normalized n -> no_space t ->
  parseEmails (updatedContent text number n t) = parseEmails (trimEnd text) ++ [n].
Proof.
  intros Hn Ht. unfold updatedContent.
  now rewrite parseEmails_app, parseEmails_newLine.
Qed.

End Decoding.

(** ** The handler, step by step *)

Section HandlerFacts.
Context {CC : CaseConversion}.
Local Open Scope io_scope.

Lemma getFile_trace env i : fst (getFile env i) = [EvGet].
Proof.
  unfold getFile. destruct (store_get env i) as [e|st parsed]; simpl; [reflexivity|].
  destruct (st =? 404)%N; simpl; [reflexivity|].
  destruct (ok_status st); simpl; [|reflexivity]. now destruct parsed.
Qed.

Lemma getFile_fetched env i : getFile env i = ([EvGet], fetched env i).
Proof.
  unfold fetched. rewrite <- (getFile_trace env i). now destruct (getFile env i).
Qed.

Lemma attempt_body_throws env ne i e :
  fetched env i = Throw e -> attempt_body env ne i = ([EvGet], Throw e).
Proof.
  intros H. unfold attempt_body. rewrite getFile_fetched, H. reflexivity.
Qed.

Lemma attempt_body_duplicate env ne i file :
  fetched env i = Ok file -> includes (entries_of file) ne = true ->
  attempt_body env ne i = ([EvGet], Ok (duplicate_email (length (entries_of file)))).
Proof.
  intros H D. unfold attempt_body. rewrite getFile_fetched, H.
  destruct file as [f|]; simpl in *; [now rewrite D|discriminate].
Qed.

Lemma attempt_body_writes env ne i file :
  fetched env i = Ok file -> includes (entries_of file) ne = false ->
  attempt_body env ne i =
    (EvGet :: fst (updateFile env i
                     (updatedContent (text_of file) (length (entries_of file) + 1) ne
                        (isoDate (today env i))) (sha_of file)),
     match snd (updateFile env i
                  (updatedContent (text_of file) (length (entries_of file) + 1) ne
                     (isoDate (today env i))) (sha_of file)) with
     | Ok _ => Ok (success (length (entries_of file) + 1))
     | Throw e => Throw e
     end).
Proof.
  intros H D. unfold attempt_body. rewrite getFile_fetched, H.
  destruct file as [f|]; simpl in *; [rewrite D|];
    match goal with |- context [updateFile ?a ?b ?c ?d] => destruct (updateFile a b c d) as [t [u|e]] end;
    simpl; rewrite ?app_nil_r; reflexivity.
Qed.

(** One iteration of the loop, by what the [try] block does. *)
Lemma retry_loop_returns env ne r i tr resp :
  attempt_body env ne i = (tr, Ok resp) ->
  retry_loop env ne (S r) i = (tr, Ok (Some resp)).
Proof. intros H. simpl. rewrite H. simpl. now rewrite !app_nil_r. Qed.

Lemma retry_loop_last env ne r tr e :
  attempt_body env ne 2 = (tr, Throw e) ->
  retry_loop env ne (S r) 2
  = (tr ++ [EvLog (lit "Waitlist write failed:") (message e)], Ok (Some write_failed)).
Proof. intros H. simpl. rewrite H. simpl. now rewrite !app_nil_r. Qed.

Lemma retry_loop_retries env ne r i tr e :
  i <> 2 -> attempt_body env ne i = (tr, Throw e) ->
  retry_loop env ne (S r) i
  = (tr ++ EvSleep 500 :: fst (retry_loop env ne r (S i)),
     snd (retry_loop env ne r (S i))).
Proof.
  intros Hi H. simpl. rewrite H. apply Nat.eqb_neq in Hi. rewrite Hi. simpl.
  destruct (retry_loop env ne r (S i)) as [t2 r2]. simpl.
  now rewrite <- app_assoc.
Qed.

(** The POST branch up to the loop (lines 81 to 87). *)
Lemma handler_post req env v :
  is_post req -> email_of_body (body req) = Some v ->
  handler req env =
    if falsy v then ([], Ok (Some invalid_input))
    else match isValidEmail v with
         | Throw e => ([], Throw e)
         | Ok false => ([], Ok (Some invalid_input))
         | Ok true =>
             match call_trim v with
             | Throw e => ([], Throw e)
             | Ok trimmed => retry_loop env (toLowerCase trimmed) 3 0
             end
         end.
Proof.
  intros Hm Hb. unfold handler. rewrite Hm, Hb.
  change (eqb (lit "POST") (lit "OPTIONS")) with false.
  change (eqb (lit "POST") (lit "GET")) with false.
  change (eqb (lit "POST") (lit "POST")) with true.
  cbv beta iota delta [negb].
  destruct (falsy v); [reflexivity|].
  destruct (isValidEmail v) as [[|]|e]; try reflexivity.
  destruct (call_trim v) as [t|e]; [|reflexivity].
  unfold lift, bind.
  destruct (retry_loop env (toLowerCase t) 3 0) as [tr r]. reflexivity.
Qed.

Lemma handler_post_absent req env :
  is_post req -> email_of_body (body req) = None ->
  handler req env = ([], Ok (Some invalid_input)).
Proof. intros Hm Hb. unfold handler. rewrite Hm, Hb. reflexivity. Qed.

Lemma isValidEmail_string e :
  isValidEmail (JStr e) = Ok (email_re e && (length e <=? 254)).
Proof. reflexivity. Qed.

Lemma handler_post_valid req env e :
  is_post req -> email_of_body (body req) = Some (JStr e) -> valid_email e ->
  handler req env = retry_loop env (toLowerCase e) 3 0.
Proof.
  intros Hm Hb [Hre Hlen]. rewrite (handler_post env Hm Hb), isValidEmail_string, Hre.
  apply Nat.leb_le in Hlen. rewrite Hlen.
  destruct e as [|c e]; [discriminate|]. simpl falsy. cbv iota.
  simpl call_trim. change (true && true) with true. cbv iota.
  now rewrite (proj1 (normalize_valid _ Hre)).
Qed.

End HandlerFacts.

(** ** The retry loop *)

Section RetryLoop.
Context {CC : CaseConversion}.

Lemma updateFile_accepted env i text sha_ :
  accepts_write env i (put_request text sha_) ->
  updateFile env i text sha_ = ([EvPut (put_request text sha_)], Ok tt).
Proof.
  intros (st & txt & E & Hok). unfold updateFile. simpl. rewrite E, Hok. reflexivity.
Qed.

(** When every attempt throws, the loop runs the three of them, sleeps
    500 ms after the first two, logs the third error and answers 500. *)
Lemma retry_loop_exhausted env ne (trs : nat -> list event) (errs : nat -> js_error) :
  (forall i, attempt_body env ne i = (trs i, Throw (errs i))) ->
  retry_loop env ne 3 0
  = (trs 0 ++ EvSleep 500 :: trs 1 ++ EvSleep 500 :: trs 2
       ++ [EvLog (lit "Waitlist write failed:") (message (errs 2))],
     Ok (Some write_failed)).
Proof.
  intros H.
  erewrite (@retry_loop_retries _ env ne 2 0) by (discriminate || apply H).
  erewrite (@retry_loop_retries _ env ne 1 1) by (discriminate || apply H).
  erewrite (@retry_loop_last _ env ne 0) by apply H. reflexivity.
Qed.

End RetryLoop.

(** ** Properties of the handler *)

Section HandlerProperties.
Context {CC : CaseConversion}.

(** C1: when every fetch of the store fails, a POST with a valid email runs
    exactly three attempts (three GETs and no other store operation), waits
    500 ms after the first and after the second, logs the third error and
    answers with the 500 response; there is no fourth attempt. *)
Theorem failing_store_exhausts_three_attempts
    (req : request) (env : environment) (e : jsstring) (errs : nat -> js_error) :
  is_post req -> email_of_body (body req) = Some (JStr e) -> valid_email e ->
  (forall i, fetched env i = Throw (errs i)) ->
  handler req env
  = ([EvGet; EvSleep 500; EvGet; EvSleep 500; EvGet;
      EvLog (lit "Waitlist write failed:") (message (errs 2))],
     Ok (Some write_failed))
  /\ status write_failed = 500%N.
Proof.
  intros Hm Hb Hv Hfail. split; [|reflexivity].
  rewrite (handler_post_valid env Hm Hb Hv).
  rewrite (retry_loop_exhausted env (toLowerCase e) (fun _ => [EvGet]) errs); [reflexivity|].
  intros i. now apply attempt_body_throws.
Qed.

(** C6: a POST whose email is the empty string, does not match the pattern or
    is longer than 254 code units is answered with the 400 response and the
    handler performs no effect at all: no fetch, no write. *)
Theorem invalid_email_rejected_before_store
    (req : request) (env : environment) (e : jsstring) :
  is_post req -> email_of_body (body req) = Some (JStr e) ->
  e = [] \/ email_re e = false \/ 254 < length e ->
  handler req env = ([], Ok (Some invalid_input)) /\ status invalid_input = 400%N.
Proof.
  intros Hm Hb Hbad. split; [|reflexivity].
  rewrite (handler_post env Hm Hb), isValidEmail_string.
  destruct Hbad as [->|[Hre|Hlen]]; [reflexivity| |].
  - rewrite Hre. now destruct (falsy (JStr e)).
  - apply Nat.leb_gt in Hlen. rewrite Hlen, andb_false_r.
    now destruct (falsy (JStr e)).
Qed.



End HandlerProperties.

(** ** Round trips of the document *)

Lemma trimEnd_spaces a w : forallb is_space w = true -> trimEnd (a ++ w) = trimEnd a.
Proof.
  intros Hw. induction a as [|c a IH]; simpl.
  - induction w as [|x w IHw]; simpl; [reflexivity|].
    simpl in Hw. apply andb_prop in Hw. destruct Hw as [Hx Hw].
    now rewrite (IHw Hw), Hx.
  - now rewrite IH.
Qed.

Lemma trimEnd_keeps a b : trimEnd b <> [] -> trimEnd (a ++ b) = a ++ trimEnd b.
Proof.
  intros Hb. induction a as [|c a IH]; simpl; [reflexivity|].
  rewrite IH. destruct (a ++ trimEnd b) eqn:E; [|reflexivity].
  apply app_eq_nil in E. tauto.
Qed.

Section RoundTrip.
Context {CC : CaseConversion}.

Lemma newLine_rendered number n t : newLine number n t = rendered number n t ++ [LF].
Proof.
  unfold newLine, rendered. rewrite <- app_assoc. simpl. now rewrite <- app_assoc.
Qed.

Lemma parseEmails_rendered number n t :
  normalized n -> no_space t -> parseEmails (rendered number n t) = [n].
Proof.
  intros Hn Ht. rewrite <- (parseEmails_newLine number Hn Ht), newLine_rendered.
  now rewrite parseEmails_final_newline.
Qed.


Lemma isoDate_nonempty d : isoDate d <> [].
Proof.
  unfold isoDate, year_string.
  destruct ((0 <=? year d)%Z && (year d <=? 9999)%Z); discriminate.
Qed.

(** A text the handler wrote decodes the same once right-trimmed, so the
    next append onto it is a round trip again. *)
Lemma written_text_trim_neutral text number n t :
  normalized n -> no_space t -> t <> [] ->
  parseEmails (trimEnd (updatedContent text number n t))
  = parseEmails (updatedContent text number n t).
Proof.
  intros Hn Ht Hne. rewrite parseEmails_updatedContent by assumption.
  unfold updatedContent. rewrite newLine_rendered.
  replace (trimEnd text ++ LF :: rendered number n t ++ [LF])
    with ((trimEnd text ++ LF :: decimal (N.of_nat number) ++ DOT :: SPACE :: n
             ++ SPACE :: EMDASH :: [SPACE]) ++ t ++ [LF]).
  2:{ unfold rendered. rewrite <- !app_assoc. simpl. rewrite <- !app_assoc. simpl.
      now rewrite <- !app_assoc. }
  assert (Et : trimEnd (t ++ [LF]) = t).
  { rewrite trimEnd_spaces by reflexivity. now apply trimEnd_no_space. }
  rewrite trimEnd_keeps by (rewrite Et; exact Hne). rewrite Et.
  replace ((trimEnd text ++ LF :: decimal (N.of_nat number) ++ DOT :: SPACE :: n
              ++ SPACE :: EMDASH :: [SPACE]) ++ t)
    with (trimEnd text ++ LF :: rendered number n t).
  2:{ unfold rendered. rewrite <- !app_assoc. simpl. rewrite <- !app_assoc. simpl.
      now rewrite <- !app_assoc. }
  now rewrite parseEmails_app, parseEmails_rendered.
Qed.

(** C2 (amended): for every text whose right-trimmed form decodes to the same
    entries, and every normalized email, the text written for the new entry
    (right-trimmed text, newline, entry line numbered with the decoded length
    plus one) decodes to the original entries followed by the new email
    alone, so the new entry is the one at position length plus one. *)
Theorem roundtrip_when_trim_is_neutral (text n : jsstring) (d : utc_date) :
  normalized n -> parseEmails (trimEnd text) = parseEmails text ->
  let number := length (parseEmails text) + 1 in
  let updated := updatedContent text number n (isoDate d) in
  updated = trimEnd text ++ LF :: rendered number n (isoDate d) ++ [LF]
  /\ parseEmails updated = parseEmails text ++ [n]
  /\ length (parseEmails updated) = number.
Proof.
  intros Hn Htrim number updated.
  assert (E : parseEmails updated = parseEmails text ++ [n]).
  { unfold updated. rewrite parseEmails_updatedContent by auto using isoDate_no_space.
    now rewrite Htrim. }
  repeat split.
  - unfold updated, updatedContent. now rewrite newLine_rendered.
  - exact E.
  - rewrite E, length_app. reflexivity.
Qed.


Lemma parseEmails_line_by_line text :
  parseEmails text = flat_map parseEmails (split LF text).
Proof.
  rewrite parseEmails_flat_map.
  pose proof (split_lines_free LF text) as F.
  induction F as [|l ls Hl _ IH]; simpl; [reflexivity|].
  now rewrite IH, (parseEmails_one_line _ Hl).
Qed.

(** C5 (amended): a line of a document is decoded as an entry exactly when
    it begins with digits, a dot, white space, a text with [@] and a later
    dot, white space, the dash and white space; what follows the dash, a date
    or not, is not looked at.  The decoded email is the text of the group,
    trimmed and lower-cased, and the document decodes line by line. *)
Theorem line_decoded_iff_entry_prefix (text line : jsstring) :
  In line (split LF text) ->
  ((exists e, parseEmails line = [e]) <-> (exists cap, entry_shape line cap))
  /\ (parseEmails line = [] <-> ~ (exists cap, entry_shape line cap))
  /\ (forall cap, entry_re line = Some cap ->
        entry_shape line cap /\ parseEmails line = [toLowerCase (trim cap)])
  /\ parseEmails text = flat_map parseEmails (split LF text).
Proof.
  intros Hin.
  assert (Hline : forallb (differs LF) line = true).
  { pose proof (split_lines_free LF text) as F. rewrite Forall_forall in F. auto. }
  rewrite (parseEmails_one_line _ Hline). unfold line_entry.
  split; [|split; [|split]].
  - split.
    + intros [e He]. destruct (entry_re line) as [cap|] eqn:E; [|discriminate].
      exists cap. now apply entry_re_sound.
    + intros [cap Hcap]. destruct (entry_re_complete Hcap) as [cap' ->]. eauto.
  - split.
    + intros He [cap Hcap]. destruct (entry_re_complete Hcap) as [cap' E].
      rewrite E in He. discriminate.
    + intros Hno. destruct (entry_re line) as [cap|] eqn:E; [|reflexivity].
      destruct Hno. exists cap. now apply entry_re_sound.
  - intros cap E. split; [now apply entry_re_sound|now rewrite E].
  - apply parseEmails_line_by_line.
Qed.


End RoundTrip.

(** ** Concrete runs

    The runs below are evaluated with [basicLatin]; their inputs are Basic
    Latin text and the dash, on which it is the conversion of the language. *)

Lemma valid_email_check (e : jsstring) :
  email_re e && (length e <=? 254) = true -> valid_email e.
Proof.
  intros H. apply andb_prop in H. destruct H as [Hre Hlen].
  split; [assumption|now apply Nat.leb_le].
Qed.

Lemma failing_store_witness :
  handler (post_email (lit "new@x.com")) store_down
  = ([EvGet; EvSleep 500; EvGet; EvSleep 500; EvGet;
      EvLog (lit "Waitlist write failed:") (lit "GitHub GET failed: 500")],
     Ok (Some write_failed))
  /\ status write_failed = 500%N.
Proof.
  exact (@failing_store_exhausts_three_attempts basicLatin
           (post_email (lit "new@x.com")) store_down (lit "new@x.com")
           (fun _ => Error (lit "GitHub GET failed: 500"))
           eq_refl eq_refl (valid_email_check (lit "new@x.com") eq_refl)
           (fun _ => eq_refl)).
Defined.

Lemma invalid_email_witness :
  handler (post_email (lit "notanemail")) store_down = ([], Ok (Some invalid_input))
  /\ status invalid_input = 400%N.
Proof.
  exact (@invalid_email_rejected_before_store basicLatin
           (post_email (lit "notanemail")) store_down (lit "notanemail")
           eq_refl eq_refl (or_intror (or_introl eq_refl))).
Defined.


Lemma roundtrip_witness :
  parseEmails (updatedContent one_entry_document 2 (lit "new@x.com") (isoDate sample_date))
  = [lit "a@b.com"; lit "new@x.com"].
Proof.
  exact (proj1 (proj2 (@roundtrip_when_trim_is_neutral basicLatin
                         one_entry_document (lit "new@x.com") sample_date
                         (conj eq_refl eq_refl) eq_refl))).
Defined.

Lemma line_decoded_witness :
  parseEmails (lit "1. a@b.com" ++ DASH ++ lit "2024-01-01") = [lit "a@b.com"].
Proof.
  exact (proj2 (proj1 (proj2 (proj2 (@line_decoded_iff_entry_prefix basicLatin
                         one_entry_document (lit "1. a@b.com" ++ DASH ++ lit "2024-01-01")
                         (or_intror (or_intror (or_introl eq_refl))))))
                 (lit "a@b.com") eq_refl)).
Defined.


(** C2, as stated, fails: the only entry line of this text ends right after
    the dash and a space.  Decoding gives its email; after the append the
    trimmed line has lost the space the pattern needs, and decoding gives the
    new email alone. *)
Lemma roundtrip_counterexample :
  normalized (lit "x@y.z")
  /\ parseEmails undated_line = [lit "a@b.c"]
  /\ parseEmails (updatedContent undated_line (length (parseEmails undated_line) + 1)
                    (lit "x@y.z") (isoDate sample_date))
     = [lit "x@y.z"]
  /\ parseEmails (updatedContent undated_line (length (parseEmails undated_line) + 1)
                    (lit "x@y.z") (isoDate sample_date))
     <> parseEmails undated_line ++ [lit "x@y.z"].
Proof.
  split; [split; reflexivity|]. split; [reflexivity|]. split; [reflexivity|].
  vm_compute. discriminate.
Qed.


(** C5, as stated, fails: a line with no date after the dash is decoded. *)
Lemma undated_line_counterexample :
  parseEmails (lit "7. a@b.c" ++ DASH ++ lit "soon") = [lit "a@b.c"]
  /\ ~ spec_entry_line (lit "7. a@b.c" ++ DASH ++ lit "soon").
Proof.
  split; [reflexivity|].
  intros (d & w1 & a & b & c & w2 & w3 & date & E & _ & _ & _ & _ & _ & _ & _
          & y & m & dd & -> & _).
  assert (H : In HYPHEN (lit "7. a@b.c" ++ DASH ++ lit "soon")).
  { rewrite E. repeat (rewrite in_app_iff; simpl In). tauto. }
  vm_compute in H. intuition discriminate.
Qed.

(** When the document is absent, the text of the first write is the header
    line, one newline and the entry numbered 1: the blank line of [header]
    is trimmed away before the entry is appended. *)
Lemma absent_document_created `{CC : CaseConversion}
    (req : request) (env : environment) (e : jsstring) :
  is_post req -> email_of_body (body req) = Some (JStr e) -> valid_email e ->
  fetched env 0 = Ok None ->
  let written := lit "# Waitlist Signups" ++ LF
                 :: newLine 1 (toLowerCase e) (isoDate (today env 0)) in
  accepts_write env 0 (put_request written None) ->
  handler req env = ([EvGet; EvPut (put_request written None)], Ok (Some (success 1))).
Proof.
  intros Hm Hb Hv Hf written Hput.
  rewrite (handler_post_valid env Hm Hb Hv). apply retry_loop_returns.
  rewrite (attempt_body_writes env (toLowerCase e) 0 Hf eq_refl).
  change (updatedContent (text_of None) (length (entries_of None) + 1) (toLowerCase e)
            (isoDate (today env 0))) with written.
  simpl sha_of. now rewrite (updateFile_accepted Hput).
Qed.

(** C7: with the document absent, a successful submit of [new@x.com] is one
    GET and one PUT without version token, answered 200 with count 1; the
    text written is the header line directly followed by the entry line, not
    the header, a blank line and the entry line. *)
Theorem first_entry_loses_blank_line :
  handler (post_email (lit "new@x.com")) store_absent
  = ([EvGet;
      EvPut {| put_message := lit "Add new waitlist signup";
               put_content := lit "# Waitlist Signups" ++ LF
                              :: lit "1. new@x.com" ++ DASH ++ lit "2024-01-15" ++ [LF];
               put_sha := None |}],
     Ok (Some (success 1)))
  /\ lit "# Waitlist Signups" ++ LF :: lit "1. new@x.com" ++ DASH ++ lit "2024-01-15" ++ [LF]
     <> lit "# Waitlist Signups" ++ LF :: LF
        :: lit "1. new@x.com" ++ DASH ++ lit "2024-01-15" ++ [LF]
  /\ header = lit "# Waitlist Signups" ++ [LF; LF].
Proof.
  split; [reflexivity|]. split; [|reflexivity]. vm_compute. discriminate.
Qed.

(** A body that is missing, [null], not an object, or an object without an
    [email], and an [email] that is falsy, are answered 400. *)
Lemma missing_email_rejected `{CC : CaseConversion} (req : request) (env : environment) :
  is_post req ->
  email_of_body (body req) = None
  \/ (exists v, email_of_body (body req) = Some v /\ falsy v = true) ->
  handler req env = ([], Ok (Some invalid_input)).
Proof.
  intros Hm [Hb|(v & Hb & Hv)].
  - now apply handler_post_absent.
  - now rewrite (handler_post env Hm Hb), Hv.
Qed.

(** The string of an object never matches the email pattern, so
    [length_le_254] is not consulted for one. *)
Lemma email_re_object (fields : list (jsstring * json)) (s : jsstring) :
  ToString (JObj fields) = Ok s -> email_re s = false.
Proof.
  simpl. destruct (lookup (lit "toString") fields); [discriminate|].
  now intros [= <-].
Qed.

(** C10: the body [{"email": ["a@b.co"]}] passes the validation (the array
    is tested through its string [a@b.co] and has one element), and the
    handler throws a TypeError at [email.trim()], before the loop and without
    sending a response. *)
Theorem array_email_throws_before_loop :
  isValidEmail (JArr [JStr (lit "a@b.co")]) = Ok true
  /\ handler (post_body (JArr [JStr (lit "a@b.co")])) store_down
     = ([], Throw (TypeError (lit "email.trim is not a function"))).
Proof. split; reflexivity. Qed.

Example object_with_own_toString_throws :
  handler (post_body (JObj [(lit "toString", JNull)])) store_down
  = ([], Throw (TypeError (lit "Cannot convert object to primitive value"))).
Proof. reflexivity. Qed.

Example bodies_without_email :
  handler {| method := lit "POST"; body := None |} store_down = ([], Ok (Some invalid_input))
  /\ handler {| method := lit "POST"; body := Some JNull |} store_down
     = ([], Ok (Some invalid_input))
  /\ handler (post_body (JNum 42)) store_down = ([], Ok (Some invalid_input))
  /\ handler (post_body JNull) store_down = ([], Ok (Some invalid_input)).
Proof. repeat split; reflexivity. Qed.

Example malformed_lines_are_skipped :
  parseEmails (header ++ lit "2. bob@example.com 2024-01-16" ++ LF
               :: lit "bob@example.com" ++ DASH ++ lit "2024-01-16" ++ LF
               :: LF :: lit "3. carol@example.com" ++ DASH ++ lit "2024-01-17" ++ [LF])
  = [lit "carol@example.com"].
Proof. reflexivity. Qed.

(** * Further properties of the store client and of the loop *)

Section StoreClient.
Context {CC : CaseConversion}.

Lemma updateFile_trace env i text sha_ :
  fst (updateFile env i text sha_) = [EvPut (put_request text sha_)].
Proof.
  unfold updateFile. simpl.
  destruct (store_put env i (put_request text sha_)) as [e|st txt parsed]; simpl;
    [reflexivity|].
  destruct (ok_status st); simpl; [now destruct parsed|now destruct txt].
Qed.

Lemma updateFile_result env i text sha_ :
  updateFile env i text sha_
  = ([EvPut (put_request text sha_)], snd (updateFile env i text sha_)).
Proof.
  rewrite <- (updateFile_trace env i text sha_). now destruct (updateFile env i text sha_).
Qed.

Lemma updateFile_ok_iff env i text sha_ :
  snd (updateFile env i text sha_) = Ok tt <-> accepts_write env i (put_request text sha_).
Proof.
  split.
  - unfold updateFile, accepts_write. simpl.
    destruct (store_put env i (put_request text sha_)) as [e|st txt parsed]; simpl;
      [discriminate|].
    destruct (ok_status st) eqn:Hok; simpl.
    + destruct parsed as [[]|e]; simpl; [|discriminate]. intros _. now exists st, txt.
    + now destruct txt.
  - intros H. now rewrite (updateFile_accepted H).
Qed.



End StoreClient.

Section LoopCases.
Context {CC : CaseConversion}.

(** Every attempt is one of the four cases. *)
Lemma attempt_body_cases env ne i :
  attempt_case env ne i (fst (attempt_body env ne i)) (snd (attempt_body env ne i)).
Proof.
  destruct (fetched env i) as [file|e] eqn:Hf.
  - destruct (includes (entries_of file) ne) eqn:Hin.
    + rewrite (attempt_body_duplicate env ne i Hf Hin). now apply finds_duplicate.
    + rewrite (attempt_body_writes env ne i Hf Hin), updateFile_result.
      cbn [fst snd]. fold (attempt_write env ne i file).
      destruct (snd (updateFile env i _ (sha_of file))) as [[]|e] eqn:Hu.
      * apply write_accepted; auto. now apply updateFile_ok_iff.
      * apply write_fails; auto. intros Hacc. apply updateFile_ok_iff in Hacc.
        unfold attempt_write in Hacc. congruence.
  - rewrite (attempt_body_throws env ne i Hf). now apply fetch_throws.
Qed.

(** The loop, unrolled over its three iterations. *)
Lemma retry_loop_unrolled env ne :
  retry_loop env ne 3 0 =
    match attempt_body env ne 0 with
    | (t0, Ok r) => (t0, Ok (Some r))
    | (t0, Throw _) =>
        match attempt_body env ne 1 with
        | (t1, Ok r) => (t0 ++ EvSleep 500 :: t1, Ok (Some r))
        | (t1, Throw _) =>
            match attempt_body env ne 2 with
            | (t2, Ok r) => (t0 ++ EvSleep 500 :: t1 ++ EvSleep 500 :: t2, Ok (Some r))
            | (t2, Throw e) =>
                (t0 ++ EvSleep 500 :: t1 ++ EvSleep 500 :: t2
                   ++ [EvLog (lit "Waitlist write failed:") (message e)],
                 Ok (Some write_failed))
            end
        end
    end.
Proof.
  destruct (attempt_body env ne 0) as [t0 [r0|e0]] eqn:A0.
  - now apply retry_loop_returns.
  - erewrite (@retry_loop_retries _ env ne 2 0) by (discriminate || eassumption).
    destruct (attempt_body env ne 1) as [t1 [r1|e1]] eqn:A1.
    + now erewrite (@retry_loop_returns _ env ne 1 1) by eassumption.
    + erewrite (@retry_loop_retries _ env ne 1 1) by (discriminate || eassumption).
      destruct (attempt_body env ne 2) as [t2 [r2|e2]] eqn:A2.
      * now erewrite (@retry_loop_returns _ env ne 0 2) by eassumption.
      * now erewrite (@retry_loop_last _ env ne 0) by eassumption.
Qed.

End LoopCases.

Section LoopOutcome.
Context {CC : CaseConversion}.

Ltac split_attempt env ne i :=
  let C := fresh "C" in
  pose proof (attempt_body_cases env ne i) as C;
  destruct (attempt_body env ne i) as [? [?|?]]; cbn [fst snd] in C;
  inversion C; subst; clear C.

Lemma failed_of_fetch env ne i e : fetched env i = Throw e -> attempt_failed env ne i.
Proof. intros H. left. now exists e. Qed.

Lemma failed_of_write env ne i file :
  fetched env i = Ok file -> includes (entries_of file) ne = false ->
  ~ accepts_write env i (attempt_write env ne i file) -> attempt_failed env ne i.
Proof. intros H1 H2 H3. right. now exists file. Qed.

Lemma three_failed env ne :
  attempt_failed env ne 0 -> attempt_failed env ne 1 -> attempt_failed env ne 2 ->
  forall i, i < 3 -> attempt_failed env ne i.
Proof.
  intros H0 H1 H2 i Hi.
  destruct i as [|[|[|i]]]; [assumption|assumption|assumption|lia].
Qed.

Ltac solve_pauses :=
  let ms := fresh "ms" in let H := fresh "H" in
  intros ms H; simpl in H;
  repeat (destruct H as [H|H]; [try discriminate; now inversion H|]); now destruct H.

Ltac solve_counts := cbv [count]; simpl; lia.

Lemma snoc_base (A : Type) (a : A) : [a] = [] ++ [a].
Proof. reflexivity. Qed.

Lemma snoc_step (A : Type) (c a : A) (l x : list A) :
  l = x ++ [a] -> c :: l = (c :: x) ++ [a].
Proof. now intros ->. Qed.

Ltac snoc := repeat first [apply snoc_base | eapply snoc_step].

Ltac success_at i :=
  left; exists i; eexists _, _;
  refine (conj _ (conj _ (conj _ (conj _ (conj _ _)))));
  [lia | eassumption | eassumption | eassumption | reflexivity | snoc].

Ltac duplicate_at i :=
  right; left; exists i; eexists _, _;
  refine (conj _ (conj _ (conj _ (conj _ _))));
  [lia | eassumption | eassumption | reflexivity | snoc].

Ltac all_failed :=
  right; right; split;
  [reflexivity | apply three_failed; eauto using failed_of_fetch, failed_of_write].

Ltac next_attempt env ne i :=
  cbv beta iota;
  match goal with
  | |- context [attempt_body env ne i] => split_attempt env ne i
  | _ => idtac
  end.

(** The loop always answers, and the answer tells what happened. *)
Lemma retry_loop_outcome env ne :
  exists tr resp,
    retry_loop env ne 3 0 = (tr, Ok (Some resp))
    /\ loop_outcome env ne tr resp
    /\ 1 <= count is_get tr <= 3
    /\ count is_put tr <= count is_get tr
    /\ count is_sleep tr = count is_get tr - 1
    /\ pauses_500 tr.
Proof.
  rewrite retry_loop_unrolled.
  next_attempt env ne 0; next_attempt env ne 1; next_attempt env ne 2; cbv beta iota;
    (eexists _, _; split; [reflexivity|]; split;
     [ first [ solve [success_at 0] | solve [success_at 1] | solve [success_at 2]
             | solve [duplicate_at 0] | solve [duplicate_at 1] | solve [duplicate_at 2]
             | solve [all_failed] ]
     | repeat split; solve_counts || solve_pauses ]).
Qed.



End LoopOutcome.

Section HandlerOutcomes.
Context {CC : CaseConversion}.

Lemma handler_options req env :
  method req = lit "OPTIONS" -> handler req env = ([], Ok (Some preflight)).
Proof. intros Hm. unfold handler. now rewrite Hm. Qed.


Lemma eqb_neq (a b : jsstring) : a <> b -> eqb a b = false.
Proof.
  intros H. destruct (eqb a b) eqn:E; [|reflexivity]. apply eqb_eq in E. contradiction.
Qed.

Lemma handler_other_method req env :
  method req <> lit "GET" -> method req <> lit "POST" ->
  handler req env
  = ([], Ok (Some (if eqb (method req) (lit "OPTIONS") then preflight
                   else method_not_allowed))).
Proof.
  intros Hg Hp.
  unfold handler. destruct (eqb (method req) (lit "OPTIONS")); [reflexivity|].
  now rewrite (eqb_neq Hg), (eqb_neq Hp).
Qed.

(** X3: a method other than GET and POST never reaches the store and never
    reads the body: OPTIONS is answered with the empty 200 response, any
    other method with 405. *)
Theorem other_methods_touch_nothing (req : request) (env : environment) :
  method req <> lit "GET" -> method req <> lit "POST" ->
  handler req env
  = ([], Ok (Some (if eqb (method req) (lit "OPTIONS") then preflight
                   else method_not_allowed)))
  /\ status preflight = 200%N /\ payload preflight = None
  /\ status method_not_allowed = 405%N.
Proof.
  intros Hg Hp. split; [|repeat split]. now apply handler_other_method.
Qed.

(** X4: a POST with a valid email always ends with a response, never with a
    throw: its status is 200, 409 or 500, it has fetched at least once and
    at most three times, written at most once per fetch, and paused 500 ms
    between two successive fetches and at no other time. *)
Theorem post_responds_within_three_attempts
    (req : request) (env : environment) (e : jsstring) :
  is_post req -> email_of_body (body req) = Some (JStr e) -> valid_email e ->
  exists tr resp,
    handler req env = (tr, Ok (Some resp))
    /\ (status resp = 200 \/ status resp = 409 \/ status resp = 500)%N
    /\ 1 <= count is_get tr <= 3
    /\ count is_put tr <= count is_get tr
    /\ count is_sleep tr = count is_get tr - 1
    /\ pauses_500 tr.
Proof.
  intros Hm Hb Hv. rewrite (handler_post_valid env Hm Hb Hv).
  destruct (retry_loop_outcome env (toLowerCase e)) as (tr & resp & E & O & Hc).
  exists tr, resp. split; [exact E|]. split; [|exact Hc].
  destruct O as [(i & file & tr' & _ & _ & _ & _ & -> & _)
                |[(i & file & tr' & _ & _ & _ & -> & _)|(-> & _)]]; auto.
Qed.

(** X5: the handler answers 200 to a POST only after the store accepted the
    write of one of its attempts: that attempt fetched a document without
    the email, the PUT is the last effect of the run, and the count answered
    is the number of entries of that document plus one. *)
Theorem success_only_after_accepted_write
    (req : request) (env : environment) (e : jsstring)
    (tr : list event) (resp : response) :
  is_post req -> email_of_body (body req) = Some (JStr e) -> valid_email e ->
  handler req env = (tr, Ok (Some resp)) -> status resp = 200%N ->
  exists i file tr',
    i < 3 /\ fetched env i = Ok file
    /\ includes (entries_of file) (toLowerCase e) = false
    /\ accepts_write env i (attempt_write env (toLowerCase e) i file)
    /\ resp = success (length (entries_of file) + 1)
    /\ tr = tr' ++ [EvPut (attempt_write env (toLowerCase e) i file)].
Proof.
  intros Hm Hb Hv H Hs. rewrite (handler_post_valid env Hm Hb Hv) in H.
  destruct (retry_loop_outcome env (toLowerCase e)) as (tr0 & resp0 & E & O & _).
  rewrite E in H. injection H as <- <-.
  destruct O as [O|[(i & file & tr' & _ & _ & _ & -> & _)|(-> & _)]];
    [exact O|discriminate|discriminate].
Qed.

(** X6: the handler answers 409 to a POST only when the document fetched by
    its last attempt holds the normalized email; that fetch is the last
    effect of the run and the count answered is the number of entries of that
    document. *)
Theorem conflict_only_when_email_fetched
    (req : request) (env : environment) (e : jsstring)
    (tr : list event) (resp : response) :
  is_post req -> email_of_body (body req) = Some (JStr e) -> valid_email e ->
  handler req env = (tr, Ok (Some resp)) -> status resp = 409%N ->
  exists i file tr',
    i < 3 /\ fetched env i = Ok file
    /\ includes (entries_of file) (toLowerCase e) = true
    /\ resp = duplicate_email (length (entries_of file))
    /\ tr = tr' ++ [EvGet].
Proof.
  intros Hm Hb Hv H Hs. rewrite (handler_post_valid env Hm Hb Hv) in H.
  destruct (retry_loop_outcome env (toLowerCase e)) as (tr0 & resp0 & E & O & _).
  rewrite E in H. injection H as <- <-.
  destruct O as [(i & file & tr' & _ & _ & _ & _ & -> & _)|[O|(-> & _)]];
    [discriminate|exact O|discriminate].
Qed.

(** X7: the handler answers 500 to a POST with a valid email only after each
    of the three attempts failed, by a fetch that threw or by a write that
    was sent and not accepted; the response is the fixed message, whatever
    the errors were. *)
Theorem failure_only_after_three_failed_attempts
    (req : request) (env : environment) (e : jsstring)
    (tr : list event) (resp : response) :
  is_post req -> email_of_body (body req) = Some (JStr e) -> valid_email e ->
  handler req env = (tr, Ok (Some resp)) -> status resp = 500%N ->
  resp = write_failed /\ forall i, i < 3 -> attempt_failed env (toLowerCase e) i.
Proof.
  intros Hm Hb Hv H Hs. rewrite (handler_post_valid env Hm Hb Hv) in H.
  destruct (retry_loop_outcome env (toLowerCase e)) as (tr0 & resp0 & E & O & _).
  rewrite E in H. injection H as <- <-.
  destruct O as [(i & file & tr' & _ & _ & _ & _ & -> & _)
                |[(i & file & tr' & _ & _ & _ & -> & _)|O]];
    [discriminate|discriminate|exact O].
Qed.


End HandlerOutcomes.

(** * Further properties of the validation *)

Lemma email_chars_without_at s :
  forallb is_email_char s = true -> filter (fun c => (c =? AT)%N) s = [].
Proof.
  induction s as [|c s IH]; simpl; [reflexivity|].
  intros H. apply andb_prop in H. destruct H as [Hc Hs].
  unfold is_email_char in Hc. apply negb_true_iff, orb_false_iff in Hc.
  destruct Hc as [_ Hc]. now rewrite Hc, IH.
Qed.

Lemma email_re_needs_at s :
  filter (fun c => (c =? AT)%N) s = [] -> email_re s = false.
Proof.
  intros H. destruct (email_re s) eqn:E; [|reflexivity].
  apply email_re_shape in E. destruct E as (a & b & c & -> & _).
  rewrite filter_app in H. simpl in H. apply app_eq_nil in H. now destruct H.
Qed.

Lemma digits_without_at s :
  forallb is_digit s = true -> filter (fun c => (c =? AT)%N) s = [].
Proof.
  induction s as [|c s IH]; simpl; [reflexivity|].
  intros H. apply andb_prop in H. destruct H as [Hc Hs]. rewrite (IH Hs).
  unfold is_digit, in_range in Hc. apply andb_prop in Hc. destruct Hc as [_ Hc].
  apply N.leb_le in Hc. destruct (N.eqb_spec c AT) as [->|]; [|reflexivity].
  unfold AT in Hc. lia.
Qed.

Lemma number_string_not_email z : email_re (number_string z) = false.
Proof.
  apply email_re_needs_at. unfold number_string.
  destruct (z <? 0)%Z; simpl; apply digits_without_at, decimal_run.
Qed.

Section Validation.
Context {CC : CaseConversion}.

(** X9: a string the validation accepts has no white space and exactly one
    [@], with a non-empty local part and a domain with an inner dot, so it has
    between 5 and 254 code units and [trim] leaves it as it is: the key of a
    validated email is its lower-casing. *)
Theorem validated_email_is_trimmed (e : jsstring) :
  isValidEmail (JStr e) = Ok true ->
  email_shape e /\ no_space e /\ trim e = e
  /\ length (filter (fun c => (c =? AT)%N) e) = 1
  /\ 5 <= length e <= 254.
Proof.
  rewrite isValidEmail_string. intros [= H]. apply andb_prop in H.
  destruct H as [Hre Hlen]. apply Nat.leb_le in Hlen.
  pose proof (email_re_no_space _ Hre) as Hns.
  pose proof (proj1 (email_re_shape e) Hre) as Hshape.
  repeat split; try assumption.
  - now apply trim_no_space.
  - destruct Hshape as (a & b & c & -> & [_ Ha] & [_ Hb] & [_ Hc]).
    rewrite filter_app. simpl. rewrite filter_app. simpl.
    now rewrite !email_chars_without_at by assumption.
  - destruct Hshape as (a & b & c & -> & [Na _] & [Nb _] & [Nc _]).
    rewrite length_app. simpl. rewrite length_app. simpl.
    destruct a; [easy|]. destruct b; [easy|]. destruct c; [easy|]. simpl. lia.
Qed.

(** X10: an [email] that is [null], a boolean, a number or an object without
    an own [toString] is answered 400 without any effect: its string never
    matches the pattern. *)
Theorem scalar_or_object_email_rejected
    (req : request) (env : environment) (v : json) :
  is_post req -> email_of_body (body req) = Some v ->
  v = JNull \/ (exists b, v = JBool b) \/ (exists z, v = JNum z)
  \/ (exists fields, v = JObj fields /\ lookup (lit "toString") fields = None) ->
  handler req env = ([], Ok (Some invalid_input)).
Proof.
  intros Hm Hb Hv. rewrite (handler_post env Hm Hb).
  destruct Hv as [->|[[b ->]|[[z ->]|(fields & -> & Hts)]]].
  - reflexivity.
  - now destruct b.
  - unfold isValidEmail. simpl ToString. cbv iota.
    rewrite number_string_not_email. now destruct (falsy (JNum z)).
  - unfold isValidEmail. simpl. rewrite Hts. reflexivity.
Qed.

(** X11: an [email] that is not a string never reaches the store and is never
    accepted: the handler answers 400 or throws, with no effect. *)
Theorem non_string_email_never_reaches_store
    (req : request) (env : environment) (v : json) :
  is_post req -> email_of_body (body req) = Some v -> (forall s, v <> JStr s) ->
  fst (handler req env) = []
  /\ (snd (handler req env) = Ok (Some invalid_input)
      \/ exists err, snd (handler req env) = Throw err).
Proof.
  intros Hm Hb Hv. rewrite (handler_post env Hm Hb).
  destruct (falsy v); [now split; [|left]|].
  destruct (isValidEmail v) as [[|]|err].
  - destruct v; try (now split; [|right; eexists]). now destruct (Hv s).
  - now split; [|left].
  - now split; [|right; exists err].
Qed.

(** X12: a POST whose body is missing, is not an object, has no [email]
    property or has a falsy one ([null], [false], [0], the empty string) is
    answered 400 without any effect. *)
Theorem body_without_email_rejected (req : request) (env : environment) :
  is_post req ->
  body req = None
  \/ (exists v, body req = Some v /\ forall fields, v <> JObj fields)
  \/ (exists fields, body req = Some (JObj fields)
                     /\ (lookup (lit "email") fields = None
                         \/ exists v, lookup (lit "email") fields = Some v
                                      /\ falsy v = true)) ->
  handler req env = ([], Ok (Some invalid_input)).
Proof.
  intros Hm [Hb|[(v & Hb & Hv)|(fields & Hb & [Hl|(v & Hl & Hf)])]].
  - apply handler_post_absent; [assumption|]. now rewrite Hb.
  - apply handler_post_absent; [assumption|]. rewrite Hb.
    destruct v; try reflexivity. now destruct (Hv fields).
  - apply handler_post_absent; [assumption|]. now rewrite Hb.
  - assert (E : email_of_body (body req) = Some v) by now rewrite Hb.
    now rewrite (handler_post env Hm E), Hf.
Qed.

End Validation.

(** * Further properties of the document *)

Section Documents.
Context {CC : CaseConversion}.

Lemma trimEnd_updatedContent text number n t :
  no_space t -> t <> [] ->
  trimEnd (updatedContent text number n t) = trimEnd text ++ LF :: rendered number n t.
Proof.
  intros Ht Hne. unfold updatedContent. rewrite newLine_rendered.
  assert (Et : trimEnd (t ++ [LF]) = t).
  { rewrite trimEnd_spaces by reflexivity. now apply trimEnd_no_space. }
  replace (trimEnd text ++ LF :: rendered number n t ++ [LF])
    with ((trimEnd text ++ LF :: decimal (N.of_nat number) ++ DOT :: SPACE :: n
             ++ SPACE :: EMDASH :: [SPACE]) ++ t ++ [LF]).
  2:{ unfold rendered. rewrite <- !app_assoc. simpl. rewrite <- !app_assoc. simpl.
      now rewrite <- !app_assoc. }
  rewrite trimEnd_keeps by (rewrite Et; exact Hne). rewrite Et.
  unfold rendered. rewrite <- !app_assoc. simpl. rewrite <- !app_assoc. simpl.
  now rewrite <- !app_assoc.
Qed.

Lemma trimEnd_header : trimEnd header = lit "# Waitlist Signups".
Proof. reflexivity. Qed.

Lemma entries_of_text file : entries_of file = parseEmails (text_of file).
Proof. now destruct file. Qed.

Lemma text_of_absent_neutral :
  parseEmails (trimEnd (text_of None)) = parseEmails (text_of None).
Proof. reflexivity. Qed.

Lemma append_entry_decodes text x :
  normalized (fst x) -> parseEmails (trimEnd text) = parseEmails text ->
  parseEmails (append_entry text x) = parseEmails text ++ [fst x]
  /\ parseEmails (trimEnd (append_entry text x)) = parseEmails (append_entry text x).
Proof.
  intros Hn Ht. unfold append_entry. split.
  - rewrite parseEmails_updatedContent by auto using isoDate_no_space. now rewrite Ht.
  - apply written_text_trim_neutral; auto using isoDate_no_space, isoDate_nonempty.
Qed.

Lemma appended_decodes text l :
  Forall (fun x => normalized (fst x)) l ->
  parseEmails (trimEnd text) = parseEmails text ->
  parseEmails (appended text l) = parseEmails text ++ map fst l.
Proof.
  intros Hl. revert text. induction Hl as [|x l Hx _ IH]; intros text Ht.
  - simpl. now rewrite app_nil_r.
  - destruct (@append_entry_decodes text x Hx Ht) as [E N].
    change (appended text (x :: l)) with (appended (append_entry text x) l).
    rewrite (IH _ N), E, <- app_assoc. reflexivity.
Qed.

Lemma appended_layout text l :
  Forall (fun x => normalized (fst x)) l ->
  parseEmails (trimEnd text) = parseEmails text -> l <> [] ->
  appended text l
  = trimEnd text ++ numbered (length (parseEmails text) + 1) l ++ [LF].
Proof.
  intros Hl. revert text. induction Hl as [|x l Hx Hl IH]; intros text Ht Hne; [easy|].
  destruct (@append_entry_decodes text x Hx Ht) as [E N].
  change (appended text (x :: l)) with (appended (append_entry text x) l).
  destruct l as [|y l].
  - simpl. unfold append_entry, updatedContent. rewrite newLine_rendered.
    now rewrite app_nil_r.
  - rewrite (IH _ N) by discriminate.
    rewrite E, length_app. simpl length.
    unfold append_entry at 1.
    rewrite trimEnd_updatedContent by auto using isoDate_no_space, isoDate_nonempty.
    replace (length (parseEmails text) + 1 + 1) with (S (length (parseEmails text) + 1)) by lia.
    change (numbered (length (parseEmails text) + 1) (x :: y :: l))
      with (LF :: rendered (length (parseEmails text) + 1) (fst x) (isoDate (snd x))
               ++ numbered (S (length (parseEmails text) + 1)) (y :: l)).
    rewrite <- !app_assoc. simpl. rewrite <- !app_assoc. simpl.
    now rewrite <- ?app_assoc.
Qed.

(** X13: appends compose.  Starting from the header of an absent document, the
    text after any sequence of appends of normalized emails is the header
    line followed by the entry lines numbered 1, 2, ... in the order of the
    appends, with a final newline, and it decodes to exactly the emails
    appended, in that order. *)
Theorem appended_document_layout (l : list (jsstring * utc_date)) :
  Forall (fun x => normalized (fst x)) l -> l <> [] ->
  appended header l = lit "# Waitlist Signups" ++ numbered 1 l ++ [LF]
  /\ parseEmails (appended header l) = map fst l
  /\ length (parseEmails (appended header l)) = length l.
Proof.
  intros Hl Hne.
  assert (E : parseEmails (appended header l) = map fst l)
    by exact (@appended_decodes header l Hl eq_refl).
  split; [|split; [exact E|now rewrite E, length_map]].
  exact (@appended_layout header l Hl eq_refl Hne).
Qed.

(** X14: the line written for a normalized email in a year from 0 to 9999 has
    the shape of the documented grammar: digits, a dot, one space, the
    email, the dash between two spaces and a date [YYYY-MM-DD]. *)
Theorem rendered_line_has_documented_shape (number : nat) (n : jsstring) (d : utc_date) :
  normalized n -> (0 <= year d <= 9999)%Z ->
  newLine number n (isoDate d) = rendered number n (isoDate d) ++ [LF]
  /\ spec_entry_line (rendered number n (isoDate d))
  /\ length (isoDate d) = 10.
Proof.
  intros [Hre _] Hy. split; [apply newLine_rendered|].
  assert (Ey : ((0 <=? year d) && (year d <=? 9999))%Z = true).
  { apply andb_true_iff. split; apply Z.leb_le; lia. }
  split; [|unfold isoDate, year_string; now rewrite Ey].
  apply email_re_shape in Hre. destruct Hre as (a & b & c & -> & Ha & Hb & Hc).
  exists (decimal (N.of_nat number)), [SPACE], a, b, c, [SPACE], [SPACE], (isoDate d).
  split.
  { unfold rendered. rewrite <- !app_assoc. simpl. rewrite <- !app_assoc. reflexivity. }
  repeat (apply conj; [first [ apply decimal_run | now split
                             | eapply run_weaken; [apply email_char_any|eassumption] ]|]).
  exists (pad4 (Z.to_N (year d))), (pad2 (month d)), (pad2 (day d)).
  split; [unfold isoDate, year_string; now rewrite Ey|].
  repeat split; try discriminate; simpl; now rewrite !digit_unit_digit.
Qed.

(** X15: the duplicate check ignores how the stored line spells the email:
    when a line of the fetched document matches with a group whose trimmed
    lower-casing is the key of a valid email, the email is answered 409
    right after the fetch. *)
Theorem stored_spelling_is_normalized
    (req : request) (env : environment) (e line cap : jsstring) (f : gh_file) :
  is_post req -> email_of_body (body req) = Some (JStr e) -> valid_email e ->
  fetched env 0 = Ok (Some f) ->
  In line (split LF (content f)) -> entry_re line = Some cap ->
  toLowerCase (trim cap) = toLowerCase e ->
  handler req env = ([EvGet], Ok (Some (duplicate_email (length (parseEmails (content f)))))).
Proof.
  intros Hm Hb Hv Hf Hin Hcap Hkey.
  rewrite (handler_post_valid env Hm Hb Hv). apply retry_loop_returns.
  apply (attempt_body_duplicate env (toLowerCase e) 0 (file := Some f) Hf).
  simpl. apply includes_In. rewrite parseEmails_flat_map. apply in_flat_map.
  exists line. split; [assumption|]. unfold line_entry. rewrite Hcap, Hkey. now left.
Qed.

End Documents.

(** * Further properties of the writes *)

Section Writes.
Context {CC : CaseConversion}.


Lemma attempt_body_write_accepted env ne i file :
  fetched env i = Ok file -> includes (entries_of file) ne = false ->
  accepts_write env i (attempt_write env ne i file) ->
  attempt_body env ne i
  = ([EvGet; EvPut (attempt_write env ne i file)],
     Ok (success (length (entries_of file) + 1))).
Proof.
  intros Hf Hin Hacc. rewrite (attempt_body_writes env ne i Hf Hin).
  unfold attempt_write in Hacc. now rewrite (updateFile_accepted Hacc).
Qed.

Lemma attempt_body_write_fails env ne i file :
  fetched env i = Ok file -> includes (entries_of file) ne = false ->
  ~ accepts_write env i (attempt_write env ne i file) ->
  exists err,
    attempt_body env ne i = ([EvGet; EvPut (attempt_write env ne i file)], Throw err).
Proof.
  intros Hf Hin Hacc. rewrite (attempt_body_writes env ne i Hf Hin), updateFile_result.
  cbn [fst snd]. fold (attempt_write env ne i file).
  destruct (snd (updateFile env i _ (sha_of file))) as [[]|err] eqn:Hu.
  - destruct Hacc. now apply updateFile_ok_iff.
  - now exists err.
Qed.

(** A first attempt whose write fails is followed by a pause and a second
    attempt that starts from a new fetch. *)
Lemma second_attempt_after_failed_write env ne file0 :
  fetched env 0 = Ok file0 -> includes (entries_of file0) ne = false ->
  ~ accepts_write env 0 (attempt_write env ne 0 file0) ->
  forall tr1 resp,
    attempt_body env ne 1 = (tr1, Ok resp) ->
    retry_loop env ne 3 0
    = ([EvGet; EvPut (attempt_write env ne 0 file0); EvSleep 500] ++ tr1, Ok (Some resp)).
Proof.
  intros Hf Hin Hacc tr1 resp H1.
  destruct (attempt_body_write_fails Hf Hin Hacc) as [err H0].
  rewrite retry_loop_unrolled, H0, H1. reflexivity.
Qed.


(** The text of an attempt's write is the append of lines 98 and 109 to 112
    onto the text it fetched. *)
Lemma attempt_write_appends env ne i file :
  put_content (attempt_write env ne i file)
  = append_entry (text_of file) (ne, today env i).
Proof. unfold append_entry. simpl. now rewrite entries_of_text. Qed.


(** X18: after a failed write the handler pauses 500 ms and starts over from
    a new fetch.  When the new document holds the email the answer is 409
    with its count; when it does not and the second write is accepted, the
    answer is 200, the second PUT is built from the second document (its
    text, its count, its version token), not from the first. *)
Theorem retry_after_conflict_refetches
    (req : request) (env : environment) (e : jsstring) (file0 file1 : option gh_file) :
  is_post req -> email_of_body (body req) = Some (JStr e) -> valid_email e ->
  fetched env 0 = Ok file0 -> includes (entries_of file0) (toLowerCase e) = false ->
  ~ accepts_write env 0 (attempt_write env (toLowerCase e) 0 file0) ->
  fetched env 1 = Ok file1 ->
  (includes (entries_of file1) (toLowerCase e) = true ->
     handler req env
     = ([EvGet; EvPut (attempt_write env (toLowerCase e) 0 file0); EvSleep 500; EvGet],
        Ok (Some (duplicate_email (length (entries_of file1))))))
  /\ (includes (entries_of file1) (toLowerCase e) = false ->
      accepts_write env 1 (attempt_write env (toLowerCase e) 1 file1) ->
      handler req env
      = ([EvGet; EvPut (attempt_write env (toLowerCase e) 0 file0); EvSleep 500;
          EvGet; EvPut (attempt_write env (toLowerCase e) 1 file1)],
         Ok (Some (success (length (entries_of file1) + 1))))).
Proof.
  intros Hm Hb Hv Hf0 Hnew0 Hrej Hf1.
  rewrite (handler_post_valid env Hm Hb Hv). split.
  - intros Hdup.
    exact (second_attempt_after_failed_write Hf0 Hnew0 Hrej
             (attempt_body_duplicate env _ 1 Hf1 Hdup)).
  - intros Hnew1 Hacc.
    exact (second_attempt_after_failed_write Hf0 Hnew0 Hrej
             (attempt_body_write_accepted Hf1 Hnew1 Hacc)).
Qed.


End Writes.

(** * Concrete runs of the further properties *)

Lemma rejected_by_status env i b st txt parsed :
  store_put env i b = PutResponse st txt parsed -> ok_status st = false ->
  ~ accepts_write env i b.
Proof. intros E Hst (st' & txt' & E' & Hok). congruence. Qed.


Lemma accepted_by_status env i b st txt :
  store_put env i b = PutResponse st txt (Ok tt) -> ok_status st = true ->
  accepts_write env i b.
Proof. intros E Hok. now exists st, txt. Qed.


Lemma other_methods_witness :
  handler {| method := lit "DELETE"; body := None |} store_down
  = ([], Ok (Some method_not_allowed))
  /\ status preflight = 200%N /\ payload preflight = None
  /\ status method_not_allowed = 405%N.
Proof.
  apply (@other_methods_touch_nothing basicLatin
           {| method := lit "DELETE"; body := None |} store_down);
    intros H; vm_compute in H; discriminate H.
Defined.

Lemma post_responds_witness :
  exists tr resp,
    handler (post_email (lit "new@x.com")) store_down = (tr, Ok (Some resp))
    /\ (status resp = 200 \/ status resp = 409 \/ status resp = 500)%N
    /\ 1 <= count is_get tr <= 3
    /\ count is_put tr <= count is_get tr
    /\ count is_sleep tr = count is_get tr - 1
    /\ pauses_500 tr.
Proof.
  exact (@post_responds_within_three_attempts basicLatin
           (post_email (lit "new@x.com")) store_down (lit "new@x.com")
           eq_refl eq_refl (valid_email_check (lit "new@x.com") eq_refl)).
Defined.

Lemma success_witness :
  exists i file tr',
    i < 3 /\ fetched store_absent i = Ok file
    /\ includes (entries_of file) (lit "new@x.com") = false
    /\ accepts_write store_absent i (attempt_write store_absent (lit "new@x.com") i file)
    /\ success 1 = success (length (entries_of file) + 1)
    /\ [EvGet; EvPut (put_request first_document None)]
       = tr' ++ [EvPut (attempt_write store_absent (lit "new@x.com") i file)].
Proof.
  exact (@success_only_after_accepted_write basicLatin
           (post_email (lit "new@x.com")) store_absent (lit "new@x.com")
           [EvGet; EvPut (put_request first_document None)] (success 1)
           eq_refl eq_refl (valid_email_check (lit "new@x.com") eq_refl)
           eq_refl eq_refl).
Defined.

Lemma conflict_witness :
  exists i file tr',
    i < 3 /\ fetched (store_holding one_entry_document) i = Ok file
    /\ includes (entries_of file) (lit "a@b.com") = true
    /\ duplicate_email 1 = duplicate_email (length (entries_of file))
    /\ [EvGet] = tr' ++ [EvGet].
Proof.
  exact (@conflict_only_when_email_fetched basicLatin
           (post_email (lit "A@B.com")) (store_holding one_entry_document) (lit "A@B.com")
           [EvGet] (duplicate_email 1)
           eq_refl eq_refl (valid_email_check (lit "A@B.com") eq_refl)
           eq_refl eq_refl).
Defined.

Lemma failure_witness :
  write_failed = write_failed
  /\ forall i, i < 3 -> attempt_failed store_down (lit "new@x.com") i.
Proof.
  exact (@failure_only_after_three_failed_attempts basicLatin
           (post_email (lit "new@x.com")) store_down (lit "new@x.com")
           [EvGet; EvSleep 500; EvGet; EvSleep 500; EvGet;
            EvLog (lit "Waitlist write failed:") (lit "GitHub GET failed: 500")]
           write_failed
           eq_refl eq_refl (valid_email_check (lit "new@x.com") eq_refl)
           eq_refl eq_refl).
Defined.

Lemma validated_email_witness :
  email_shape (lit "a@b.com") /\ no_space (lit "a@b.com")
  /\ trim (lit "a@b.com") = lit "a@b.com"
  /\ length (filter (fun c => (c =? AT)%N) (lit "a@b.com")) = 1
  /\ 5 <= length (lit "a@b.com") <= 254.
Proof.
  exact (@validated_email_is_trimmed (lit "a@b.com") eq_refl).
Defined.

Lemma scalar_email_witness :
  handler (post_body (JNum 42)) store_down = ([], Ok (Some invalid_input)).
Proof.
  exact (@scalar_or_object_email_rejected basicLatin
           (post_body (JNum 42)) store_down (JNum 42) eq_refl eq_refl
           (or_intror (or_intror (or_introl (ex_intro _ 42%Z eq_refl))))).
Defined.

Lemma non_string_email_witness :
  fst (handler (post_body (JArr [JStr (lit "a@b.co")])) store_down) = []
  /\ (snd (handler (post_body (JArr [JStr (lit "a@b.co")])) store_down)
      = Ok (Some invalid_input)
      \/ exists err,
           snd (handler (post_body (JArr [JStr (lit "a@b.co")])) store_down) = Throw err).
Proof.
  apply (@non_string_email_never_reaches_store basicLatin
           (post_body (JArr [JStr (lit "a@b.co")])) store_down
           (JArr [JStr (lit "a@b.co")]) eq_refl eq_refl).
  intros s H. discriminate H.
Defined.

Lemma body_without_email_witness :
  handler {| method := lit "POST"; body := None |} store_down
  = ([], Ok (Some invalid_input)).
Proof.
  exact (@body_without_email_rejected basicLatin
           {| method := lit "POST"; body := None |} store_down eq_refl
           (or_introl eq_refl)).
Defined.

Lemma appended_document_witness :
  appended header two_signups
  = lit "# Waitlist Signups" ++ LF :: lit "1. a@b.com" ++ DASH ++ lit "2024-01-15"
    ++ LF :: lit "2. c@d.org" ++ DASH ++ lit "2024-12-03" ++ [LF]
  /\ parseEmails (appended header two_signups) = [lit "a@b.com"; lit "c@d.org"]
  /\ length (parseEmails (appended header two_signups)) = 2.
Proof.
  apply (@appended_document_layout basicLatin two_signups).
  - repeat constructor.
  - discriminate.
Defined.

Lemma rendered_line_witness :
  newLine 3 (lit "a@b.com") (isoDate sample_date)
  = rendered 3 (lit "a@b.com") (isoDate sample_date) ++ [LF]
  /\ spec_entry_line (rendered 3 (lit "a@b.com") (isoDate sample_date))
  /\ length (isoDate sample_date) = 10.
Proof.
  apply (@rendered_line_has_documented_shape basicLatin 3 (lit "a@b.com") sample_date).
  - split; reflexivity.
  - simpl. lia.
Defined.

Lemma stored_spelling_witness :
  handler (post_email (lit "bob@x.com")) (store_holding hand_written_document)
  = ([EvGet], Ok (Some (duplicate_email 1))).
Proof.
  exact (@stored_spelling_is_normalized basicLatin
           (post_email (lit "bob@x.com")) (store_holding hand_written_document)
           (lit "bob@x.com")
           (lit "1.  Bob@X.COM  " ++ EMDASH :: lit " 2024-01-01") (lit "Bob@X.COM ")
           {| content := hand_written_document; sha := lit "3f2a" |}
           eq_refl eq_refl (valid_email_check (lit "bob@x.com") eq_refl) eq_refl
           (or_intror (or_intror (or_introl eq_refl))) eq_refl eq_refl).
Defined.



Lemma retry_after_conflict_witness :
  handler (post_email (lit "new@x.com")) store_conflict_once
  = ([EvGet;
      EvPut (put_request (one_entry_document ++ lit "2. new@x.com" ++ DASH
                            ++ lit "2024-01-15" ++ [LF]) (Some (lit "aaa1")));
      EvSleep 500; EvGet;
      EvPut (put_request (two_entry_document ++ lit "3. new@x.com" ++ DASH
                            ++ lit "2024-01-15" ++ [LF]) (Some (lit "bbb2")))],
     Ok (Some (success 3))).
Proof.
  exact (proj2 (@retry_after_conflict_refetches basicLatin
                  (post_email (lit "new@x.com")) store_conflict_once (lit "new@x.com")
                  (Some {| content := one_entry_document; sha := lit "aaa1" |})
                  (Some {| content := two_entry_document; sha := lit "bbb2" |})
                  eq_refl eq_refl (valid_email_check (lit "new@x.com") eq_refl)
                  eq_refl eq_refl
                  (@rejected_by_status store_conflict_once 0 _ 409%N
                     (Ok (lit "conflict")) (Ok tt) eq_refl eq_refl)
                  eq_refl)
               eq_refl
               (@accepted_by_status store_conflict_once 1 _ 200%N (Ok []) eq_refl eq_refl)).
Defined.

